(** * Tag-to-type classification (generator/osm2type.cpp) and the
      click check of the OpenLR assessment tool: a shallow embedding.

    The development follows the source file top-down: [NeedMatchValue],
    [IgnoreTag], [ForEachTag], [ForEachTagEx], [ExtractNames],
    [TagProcessor], [CachedTypes], [MatchTypes] and the stages of
    [GetNameAndType]; then [PointsMatch] and [CheckClick].  Code that the
    translation unit only calls (the classificator tree, the type encoder,
    the visibility predicate, parts of [FeatureParams], the string helpers)
    is taken through the [Externals] interface. *)

From Stdlib Require Import ZArith Ascii String List Bool Lia.
From stdpp Require Import base decidable list sets gmap strings.

Local Open Scope string_scope.
Local Open Scope list_scope.

(** ** Strings *)

Module Str.

(** [s.empty()] *)
Definition empty (s : string) : bool :=
  match s with EmptyString => true | String _ _ => false end.

(** [s.c_str()] / [s.data()] read as a C string: the bytes before the
    first NUL. *)
Fixpoint c_str (s : string) : string :=
  match s with
  | EmptyString => EmptyString
  | String c r => if Ascii.eqb c "000"%char then EmptyString else String c (c_str r)
  end.

(** First character of a C string literal ([p[0]]); the terminator when
    the literal is empty. *)
Definition front (s : string) : ascii :=
  match s with EmptyString => "000"%char | String c _ => c end.

(** [strcmp(a.data(), lit) == 0] for a literal [lit]. *)
Definition strcmp_eq (a lit : string) : bool := String.eqb (c_str a) lit.

(** [hay.find(needle) != string::npos] *)
Fixpoint contains (needle hay : string) : bool :=
  if String.prefix needle hay then true
  else match hay with
       | EmptyString => false
       | String _ r => contains needle r
       end.

(** No NUL byte inside: the strings a [char const *] can denote. *)
Fixpoint nul_free (s : string) : bool :=
  match s with
  | EmptyString => true
  | String c r => negb (Ascii.eqb c "000"%char) && nul_free r
  end.

End Str.

(** ** The tag store *)

Record Tag := mkTag { key : string; value : string }.

Record OsmElement := mkElem { m_tags : list Tag }.

(** A tag whose two fields were cleared ([k.clear(); v.clear();]). *)
Definition consumed (e : Tag) : Prop := key e = "" /\ value e = "".

Definition cleared : Tag := mkTag "" "".

(** [OsmElement::AddTag] *)
Definition AddTag (k v : string) (p : OsmElement) : OsmElement :=
  mkElem (m_tags p ++ [mkTag k v]).

(** ** [IgnoreTag] *)

Definition negativeValues : list string := ["no"; "false"; "-1"].

Definition processedKeys : list (string * bool) :=
  [ ("description", true); ("cycleway", true); ("proposed", true);
    ("construction", true); ("layer", false); ("oneway", false) ].

(** The loop [for (key : processedKeys) if (k == key.first) return key.second]:
    [Some b] when it returns [b], [None] when it falls through. *)
Fixpoint find_processed (k : string) (keys : list (string * bool)) : option bool :=
  match keys with
  | [] => None
  | (name, b) :: rest => if String.eqb k name then Some b else find_processed k rest
  end.

Definition IgnoreTag (k v : string) : bool :=
  if Str.empty k then true
  else match find_processed k processedKeys with
       | Some b => b
       | None => existsb (String.eqb v) negativeValues
       end.

(** ** [ForEachTag] and [ForEachTagEx] *)

(** The result types the templates are instantiated at: a default value
    [TResult()] and the conversion to [bool] used by [if (res)]; the
    default converts to [false] ([false] itself, the null pointer). *)
Class TResult (R : Type) := {
  TResult_default : R;
  to_bool : R -> bool;
  default_false : to_bool TResult_default = false
}.

#[export] Instance TResult_bool : TResult bool :=
  {| TResult_default := false; to_bool := fun b => b; default_false := eq_refl |}.

#[export] Instance TResult_option {A} : TResult (option A) :=
  {| TResult_default := None;
     to_bool := fun o => match o with Some _ => true | None => false end;
     default_false := eq_refl |}.

Section ForEachTag.
Context {R : Type} `{TResult R} {St : Type}.

(** A functor called as [toDo(e.key, e.value)]: it returns a result, the
    (possibly rewritten) key and value, and its own new state. *)
Definition ToDo := string -> string -> St -> R * (string * string) * St.

(** The loop of [ForEachTag], [res] being the local of that name. *)
Fixpoint ForEachTag_loop (toDo : ToDo) (res : R) (tags : list Tag) (st : St)
  : R * list Tag * St :=
  match tags with
  | [] => (res, [], st)
  | e :: rest =>
      if IgnoreTag (key e) (value e) then
        let '(r, rest', st') := ForEachTag_loop toDo res rest st in
        (r, e :: rest', st')
      else
        let '(res1, (k', v'), st1) := toDo (key e) (value e) st in
        if to_bool res1 then (res1, mkTag k' v' :: rest, st1)
        else
          let '(r, rest', st') := ForEachTag_loop toDo res1 rest st1 in
          (r, mkTag k' v' :: rest', st')
  end.

Definition ForEachTag (toDo : ToDo) (tags : list Tag) (st : St) : R * list Tag * St :=
  ForEachTag_loop toDo TResult_default tags st.

(** A functor taking [string const &]: the tag is left as it is. *)
Definition const_ToDo (f : string -> string -> St -> R * St) : ToDo :=
  fun k v st => let '(r, st') := f k v st in (r, (k, v), st').

End ForEachTag.

Section ForEachTagEx.
Context {R : Type} `{TResult R} {St : Type}.

(** State of the lambda of [ForEachTagEx]: the counter [id], the set
    [skipTags] (both captured by reference) and the state of [toDo]. *)
Definition ExState : Type := nat * gset nat * St.

Definition ForEachTagEx_lambda (toDo : string -> string -> St -> R * St)
  (k v : string) (s : ExState) : R * ExState :=
  let '(id, skipTags, st) := s in
  let current_id := id in
  let id := S id in
  if decide (current_id ∈ skipTags) then (TResult_default, (id, skipTags, st))
  else if Str.contains "name" k then
    (TResult_default, (id, {[current_id]} ∪ skipTags, st))
  else
    let '(res, st') := toDo k v st in
    if to_bool res then (res, (id, {[current_id]} ∪ skipTags, st'))
    else (res, (id, skipTags, st')).

Definition ForEachTagEx (toDo : string -> string -> St -> R * St)
  (tags : list Tag) (skipTags : gset nat) (st : St) : R * gset nat * St :=
  let '(res, _, (_, skip', st')) :=
    ForEachTag (const_ToDo (ForEachTagEx_lambda toDo)) tags (0, skipTags, st) in
  (res, skip', st').

End ForEachTagEx.

(** ** The output record *)

(** [FeatureParams], with the fields this translation unit reads or
    writes.  [layer] is an [int8_t] (the clamp bound of the source is
    declared with that type), [rank] a [uint8_t], type codes are
    [uint32_t]; all are carried as [Z]. *)
Record FeatureParams := mkParams {
  m_Types : list Z;
  name : gmap string string;
  house : string;
  flats : string;
  rank : Z;
  ref : string;
  layer : Z;
  m_reverseGeometry : bool
}.

Definition set_Types (ts : list Z) (p : FeatureParams) : FeatureParams :=
  mkParams ts (name p) (house p) (flats p) (rank p) (ref p) (layer p) (m_reverseGeometry p).
Definition set_name (n : gmap string string) (p : FeatureParams) : FeatureParams :=
  mkParams (m_Types p) n (house p) (flats p) (rank p) (ref p) (layer p) (m_reverseGeometry p).
Definition set_flats (s : string) (p : FeatureParams) : FeatureParams :=
  mkParams (m_Types p) (name p) (house p) s (rank p) (ref p) (layer p) (m_reverseGeometry p).
Definition set_rank (r : Z) (p : FeatureParams) : FeatureParams :=
  mkParams (m_Types p) (name p) (house p) (flats p) r (ref p) (layer p) (m_reverseGeometry p).
Definition set_ref (s : string) (p : FeatureParams) : FeatureParams :=
  mkParams (m_Types p) (name p) (house p) (flats p) (rank p) s (layer p) (m_reverseGeometry p).
Definition set_layer (l : Z) (p : FeatureParams) : FeatureParams :=
  mkParams (m_Types p) (name p) (house p) (flats p) (rank p) (ref p) l (m_reverseGeometry p).
Definition set_reverseGeometry (b : bool) (p : FeatureParams) : FeatureParams :=
  mkParams (m_Types p) (name p) (house p) (flats p) (rank p) (ref p) (layer p) b.

(** Modelled from the spec: [FeatureParams::AddType] is not in this
    translation unit; the spec has it add a type code to the record, whose
    codes are later read back as a vector ([m_Types]) in insertion order. *)
Definition AddType (t : Z) (p : FeatureParams) : FeatureParams :=
  set_Types (m_Types p ++ [t]) p.

(** Modelled from the spec: [FeatureParams::PopExactType] is not in this
    translation unit; the spec has the post-fix test whether the record
    contains the type and remove it. *)
Definition PopExactType (t : Z) (p : FeatureParams) : bool * FeatureParams :=
  (existsb (Z.eqb t) (m_Types p),
   set_Types (List.filter (fun x => negb (Z.eqb x t)) (m_Types p)) p).

(** Modelled from the spec: [FeatureParams::AddName] is not in this
    translation unit; the spec has a name table keyed by language with at
    most one entry per key. *)
Definition AddName (lang s : string) (p : FeatureParams) : FeatureParams :=
  set_name (<[lang := s]> (name p)) p.

(** Modelled from the spec: [params.name.Clear()] empties the name table. *)
Definition name_Clear (p : FeatureParams) : FeatureParams := set_name ∅ p.

(** [params.house.IsEmpty()] *)
Definition house_IsEmpty (p : FeatureParams) : bool := Str.empty (house p).

(** ** Collaborators *)

(** What the translation unit calls and does not define: the classificator
    tree, the type encoder [ftype], the visibility predicate, string
    helpers, Unicode normalisation and the remaining [FeatureParams]
    methods. *)
Class Externals := {
  ClassifObject : Type;
  (** [classif().GetRoot()] *)
  GetRoot : ClassifObject;
  (** [ClassifObject::BinaryFind]: the child of that name with its index
      (a [ClassifObjectPtr]), or the null pointer. *)
  BinaryFind : ClassifObject -> string -> option (ClassifObject * nat);
  (** [classif().GetTypeByPath] *)
  GetTypeByPath : list string -> Z;
  GetEmptyValue : Z;
  PushValue : Z -> nat -> Z;
  TruncValue : Z -> nat -> Z;
  (** [feature::IsDrawableAny] *)
  IsDrawableAny : Z -> bool;
  (** [strings::is_number] *)
  is_number : string -> bool;
  (** [strings::to_uint64] *)
  to_uint64 : string -> option Z;
  (** [static_cast<uint8_t>(log(double(n)) / log(1.1))] *)
  population_rank : Z -> Z;
  (** [QString::fromUtf8(s).normalized(NormalizationForm_KC).toUtf8()] *)
  NFKC : string -> string;
  AddHouseName : string -> FeatureParams -> FeatureParams;
  AddHouseNumber : string -> FeatureParams -> bool * FeatureParams;
  AddStreetAddress : string -> FeatureParams -> FeatureParams;
  SetRwSubwayType : string -> FeatureParams -> FeatureParams
}.

(** [ClassifObjectPtr]: an object and its index among its siblings. *)
Definition ClassifObjectPtr `{Externals} : Type := (ClassifObject * nat)%type.

(** ** [NeedMatchValue] *)

Definition NeedMatchValue `{Externals} (k v : string) : bool :=
  let isNumber := is_number v in
  negb isNumber || (isNumber && (String.eqb k "admin_level" || String.eqb k "capital")).

(** ** [ExtractNames] *)

(** [strings::SimpleTokenizer token(k, "\t :")], as the list of the
    tokens the iterator yields. *)
Module SimpleTokenizer.

Definition is_delim (c : ascii) : bool :=
  Ascii.eqb c "009"%char || Ascii.eqb c " "%char || Ascii.eqb c ":"%char.

Fixpoint split (s : string) : list string :=
  match s with
  | EmptyString => [EmptyString]
  | String c r =>
      if is_delim c then EmptyString :: split r
      else match split r with
           | t :: ts => String c t :: ts
           | [] => [String c EmptyString]
           end
  end.

(** Modelled from the spec: [strings::SimpleTokenizer] is not in this
    translation unit; the spec has the key tokenized on tab, space and
    colon separators.  Tokens are the maximal runs of other characters. *)
Definition tokens (s : string) : list string :=
  List.filter (fun t => negb (Str.empty t)) (split s).

End SimpleTokenizer.

Module ExtractNames.

Record t := mk { m_savedNames : gset string; m_params : FeatureParams }.

(** [m_savedNames.insert(lang).second] with the set after the call. *)
Definition insert_second (lang : string) (saved : gset string) : bool * gset string :=
  (negb (bool_decide (lang ∈ saved)), {[lang]} ∪ saved).

(** Returns the result, the out-parameter [lang] and the set. *)
Definition GetLangByKey (k : string) (saved : gset string)
  : bool * string * gset string :=
  match SimpleTokenizer.tokens k with
  | [] => (false, "", saved)
  | tok :: more =>
      if String.eqb tok "int_name" then
        let '(b, saved') := insert_second "int_name" saved in (b, "int_name", saved')
      else if negb (String.eqb tok "name") then (false, "", saved)
      else
        let lang := match more with t :: _ => t | [] => "default" end in
        let lang := if String.eqb lang "ar1" then "ar" else lang in
        let '(b, saved') := insert_second lang saved in (b, lang, saved')
  end.

(** [operator()(string & k, string & v)] *)
Definition call `{Externals} (k v : string) (st : t) : bool * (string * string) * t :=
  if Str.empty v then (false, (k, v), st)
  else
    let '(ok, lang, saved') := GetLangByKey k (m_savedNames st) in
    if negb ok then (false, (k, v), mk saved' (m_params st))
    else
      let normBytes := NFKC (Str.c_str v) in
      (false, ("", ""), mk saved' (AddName lang normBytes (m_params st))).

(** [ForEachTag<bool>(p, ExtractNames(params))] *)
Definition run `{Externals} (tags : list Tag) (params : FeatureParams)
  : list Tag * FeatureParams :=
  let '(_, tags', st) := ForEachTag call tags (mk ∅ params) in
  (tags', m_params st).

End ExtractNames.

(** ** [TagProcessor] *)

Module TagProcessor.

(** The two callback arities of [Rule<FuncT>] and the overloads of
    [call]: [void()] acts on the captured state only,
    [void(string &, string &)] may rewrite the tag too. *)
Inductive FuncT (St : Type) :=
| Func0 (f : St -> St)
| Func2 (f : string -> string -> St -> string * string * St).
Arguments Func0 {St} f.
Arguments Func2 {St} f.

(** Fields [key], [value], [func] of the source's [Rule]; both patterns
    are C string literals. *)
Record Rule (St : Type) := mkRule {
  rkey : string;
  rvalue : string;
  func : FuncT St
}.
Arguments mkRule {St} _ _ _.
Arguments rkey {St} _.
Arguments rvalue {St} _.
Arguments func {St} _.

Definition IsNegative (value : string) : bool :=
  existsb (String.eqb value) ["no"; "none"; "false"].

Definition call {St} (f : FuncT St) (k v : string) (st : St) : string * string * St :=
  match f with
  | Func0 g => (k, v, g st)
  | Func2 g => g k v st
  end.

(** The local [take] of [ApplyRules]. *)
Definition take {St} (rule : Rule St) (e : Tag) : bool :=
  if Ascii.eqb (Str.front (rvalue rule)) "*"%char then true
  else if Ascii.eqb (Str.front (rvalue rule)) "!"%char then IsNegative (value e)
  else if Ascii.eqb (Str.front (rvalue rule)) "~"%char then negb (IsNegative (value e))
  else false.

(** The condition under which [call(rule.func, e.key, e.value)] is
    reached for the tag [e]. *)
Definition fires {St} (rule : Rule St) (e : Tag) : bool :=
  Str.strcmp_eq (key e) (rkey rule)
  && (take rule e || String.eqb (value e) (rvalue rule)).

(** The inner loop over the rules, for one tag held by reference. *)
Fixpoint ApplyRules_tag {St} (rules : list (Rule St)) (e : Tag) (st : St) : Tag * St :=
  match rules with
  | [] => (e, st)
  | rule :: rest =>
      if negb (Str.strcmp_eq (key e) (rkey rule)) then ApplyRules_tag rest e st
      else if take rule e || String.eqb (value e) (rvalue rule) then
        let '(k', v', st') := call (func rule) (key e) (value e) st in
        ApplyRules_tag rest (mkTag k' v') st'
      else ApplyRules_tag rest e st
  end.

Fixpoint ApplyRules {St} (rules : list (Rule St)) (tags : list Tag) (st : St)
  : list Tag * St :=
  match tags with
  | [] => ([], st)
  | e :: rest =>
      let '(e', st1) := ApplyRules_tag rules e st in
      let '(rest', st2) := ApplyRules rules rest st1 in
      (e' :: rest', st2)
  end.

End TagProcessor.

(** ** [CachedTypes] *)

Module CachedTypes.

Inductive EType :=
| ENTRANCE | HIGHWAY | ADDRESS | ONEWAY | PRIVATE | LIT | NOFOOT | YESFOOT
| RW_STATION | RW_STATION_SUBWAY.

(** The enumerator as the index into [m_types]. *)
Definition index (t : EType) : nat :=
  match t with
  | ENTRANCE => 0 | HIGHWAY => 1 | ADDRESS => 2 | ONEWAY => 3 | PRIVATE => 4
  | LIT => 5 | NOFOOT => 6 | YESFOOT => 7 | RW_STATION => 8
  | RW_STATION_SUBWAY => 9
  end.

Section WithExternals.
Context `{Externals}.

(** The vector filled by the constructor, in push order. *)
Definition m_types : list Z :=
  map GetTypeByPath [ ["entrance"]; ["highway"] ]
  ++ map GetTypeByPath
       [ ["building"; "address"]; ["hwtag"; "oneway"]; ["hwtag"; "private"];
         ["hwtag"; "lit"]; ["hwtag"; "nofoot"]; ["hwtag"; "yesfoot"] ]
  ++ [ GetTypeByPath ["railway"; "station"] ]
  ++ [ GetTypeByPath ["railway"; "station"; "subway"] ].

Definition Get (t : EType) : Z := nth (index t) m_types 0%Z.

Definition IsHighway (t : Z) : bool := Z.eqb (TruncValue t 1) (Get HIGHWAY).
Definition IsRwStation (t : Z) : bool := Z.eqb t (Get RW_STATION).
Definition IsRwSubway (t : Z) : bool := Z.eqb (TruncValue t 3) (Get RW_STATION_SUBWAY).
End WithExternals.

End CachedTypes.

(** ** [MatchTypes] *)

(** How a run of a loop modelled with fuel ends. *)
Inductive Outcome (A : Type) :=
| Done (a : A)
| CheckFailed
| OutOfFuel.
Arguments Done {A} a.
Arguments CheckFailed {A}.
Arguments OutOfFuel {A}.

Section MatchTypes.
Context `{Externals}.

(** The lambda [matchTagToClassificator]; [current] is read, [path] is
    written. *)
Definition matchTagToClassificator (current : ClassifObject) (k v : string)
  (path : list ClassifObjectPtr) : bool * list ClassifObjectPtr :=
  match BinaryFind current k with
  | None => (false, path)
  | Some elem =>
      let path := path ++ [elem] in
      if NeedMatchValue k v then
        match BinaryFind (fst elem) v with
        | Some elem' => (true, path ++ [elem'])
        | None => (true, path)
        end
      else (true, path)
  end.

(** The lambda of the value scan in the inner loop. *)
Definition matchValue (current : ClassifObject) (k v : string) (u : unit)
  : option ClassifObjectPtr * unit :=
  (if negb (NeedMatchValue k v) then None else BinaryFind current v, u).

(** The inner [do ... while (true)]: extends [path] until neither scan
    finds a tag.  [path.back()] needs a non-empty path, which the CHECK
    before the loop has established. *)
Fixpoint extendPath (fuel : nat) (tags : list Tag) (skipRows : gset nat)
  (path : list ClassifObjectPtr) : Outcome (gset nat * list ClassifObjectPtr) :=
  match fuel with
  | O => OutOfFuel
  | S fuel' =>
      match last path with
      | None => CheckFailed
      | Some back =>
          let current := fst back in
          let '(pObj, skip1, _) := ForEachTagEx (matchValue current) tags skipRows tt in
          match pObj with
          | Some o => extendPath fuel' tags skip1 (path ++ [o])
          | None =>
              let '(found, skip2, path2) :=
                ForEachTagEx (matchTagToClassificator current) tags skip1 path in
              if negb found then Done (skip2, path2)
              else extendPath fuel' tags skip2 path2
          end
      end
  end.

(** [t = GetEmptyValue(); for (e : path) PushValue(t, e.GetIndex());] *)
Definition assignType (path : list ClassifObjectPtr) : Z :=
  fold_left (fun t e => PushValue t (snd e)) path GetEmptyValue.

(** The outer [do ... while (true)].  Beside the record it returns the
    values [skipRows] had at the top of each iteration it ran, oldest
    first (a ghost trace; the record does not depend on it). *)
Fixpoint MatchTypes_loop (fuel : nat) (tags : list Tag) (skipRows : gset nat)
  (params : FeatureParams) : Outcome (FeatureParams * list (gset nat)) :=
  match fuel with
  | O => OutOfFuel
  | S fuel' =>
      let '(found, skip1, path1) :=
        ForEachTagEx (matchTagToClassificator GetRoot) tags skipRows [] in
      if negb found then Done (params, [skipRows])
      else
        match path1 with
        | [] => CheckFailed
        | _ :: _ =>
            match extendPath (S (length tags)) tags skip1 path1 with
            | Done (skip2, path2) =>
                let t := assignType path2 in
                let params' := if IsDrawableAny t then AddType t params else params in
                match MatchTypes_loop fuel' tags skip2 params' with
                | Done (r, trace) => Done (r, skipRows :: trace)
                | CheckFailed => CheckFailed
                | OutOfFuel => OutOfFuel
                end
            | CheckFailed => CheckFailed
            | OutOfFuel => OutOfFuel
            end
        end
  end.

(** [set<int> skipRows;] is declared before the outer loop: it starts
    empty once per call. *)
Definition MatchTypes_trace (p : OsmElement) (params : FeatureParams)
  : Outcome (FeatureParams * list (gset nat)) :=
  MatchTypes_loop (S (length (m_tags p))) (m_tags p) ∅ params.

Definition MatchTypes (p : OsmElement) (params : FeatureParams) : Outcome FeatureParams :=
  match MatchTypes_trace p params with
  | Done (r, _) => Done r
  | CheckFailed => CheckFailed
  | OutOfFuel => OutOfFuel
  end.

End MatchTypes.

(** ** Numeric helpers of the [layer] rule *)

Module Num.
Local Open Scope Z_scope.

(** [isspace] in the C locale. *)
Definition isspace (c : ascii) : bool :=
  let n := Z.of_nat (nat_of_ascii c) in
  (n =? 32) || ((9 <=? n) && (n <=? 13)).

Definition digit (c : ascii) : option Z :=
  let n := Z.of_nat (nat_of_ascii c) in
  if (48 <=? n) && (n <=? 57) then Some (n - 48) else None.

Fixpoint digits (s : string) (acc : Z) : Z :=
  match s with
  | EmptyString => acc
  | String c r =>
      match digit c with
      | Some d => digits r (10 * acc + d)
      | None => acc
      end
  end.

Fixpoint skip_space (s : string) : string :=
  match s with
  | EmptyString => EmptyString
  | String c r => if isspace c then skip_space r else s
  end.

Definition LONG_MAX : Z := 2 ^ 63 - 1.
Definition LONG_MIN : Z := - 2 ^ 63.

(** [strtol(s, nullptr, 10)] of the C library, with a 64-bit [long]:
    leading white space, an optional sign, then decimal digits; a value
    outside the range of [long] gives [LONG_MAX] or [LONG_MIN]. *)
Definition strtol (s : string) : Z :=
  let n := match skip_space s with
           | String "-"%char r => - digits r 0
           | String "+"%char r => digits r 0
           | s' => digits s' 0
           end in
  Z.max LONG_MIN (Z.min n LONG_MAX).

(** Conversion of a [long] to the 32-bit [int] (two's complement
    wrap-around). *)
Definition to_int (z : Z) : Z := (z + 2 ^ 31) mod 2 ^ 32 - 2 ^ 31.

(** The C library's [atoi]: [(int) strtol(s, nullptr, 10)]. *)
Definition atoi (s : string) : Z := to_int (strtol s).

(** Conversion of an [int] to [int8_t] on assignment (two's complement
    wrap-around). *)
Definition to_int8 (z : Z) : Z := (z + 128) mod 256 - 128.

(** [my::clamp(x, xmin, xmax)] *)
Definition clamp (x xmin xmax : Z) : Z := Z.max xmin (Z.min x xmax).

End Num.

(** ** [GetNameAndType] *)

Module GetNameAndType.
Import TagProcessor CachedTypes.

(** *** Preprocessing: bridge, tunnel, layer *)

(** The captured locals [hasLayer] and [layer] (a [char const *],
    [nullptr] at first). *)
Record PreState := mkPre { hasLayer : bool; layer_lit : option string }.

Definition preprocess_rules : list (Rule PreState) :=
  [ mkRule "bridge" "yes" (Func0 (fun s => mkPre (hasLayer s) (Some "1")));
    mkRule "tunnel" "yes" (Func0 (fun s => mkPre (hasLayer s) (Some "-1")));
    mkRule "layer" "*" (Func0 (fun s => mkPre true (layer_lit s))) ].

Definition preprocess (p : OsmElement) : OsmElement :=
  let '(tags, s) := ApplyRules preprocess_rules (m_tags p) (mkPre false None) in
  match hasLayer s, layer_lit s with
  | false, Some l => AddTag "layer" l (mkElem tags)
  | _, _ => mkElem tags
  end.

(** *** Base rules *)

(** The action of the ["layer"] rule. *)
Definition layer_action (k v : string) (params : FeatureParams)
  : string * string * FeatureParams :=
  if Z.eqb (layer params) 0 then
    let params1 := set_layer (Num.to_int8 (Num.atoi (Str.c_str v))) params in
    let bound := 10%Z in
    (k, v, set_layer (Num.clamp (layer params1) (- bound) bound) params1)
  else (k, v, params).

Section WithExternals.
Context `{Externals}.

Definition base_rules : list (Rule FeatureParams) :=
  [ mkRule "atm" "yes" (Func2 (fun k v params => ("amenity", k, params)));
    mkRule "restaurant" "yes" (Func2 (fun k v params => ("amenity", k, params)));
    mkRule "hotel" "yes" (Func2 (fun k v params => ("tourism", k, params)));
    mkRule "addr:housename" "*"
      (Func2 (fun k v params => ("", "", AddHouseName v params)));
    mkRule "addr:street" "*"
      (Func2 (fun k v params => ("", "", AddStreetAddress v params)));
    mkRule "addr:flats" "*"
      (Func2 (fun k v params => ("", "", set_flats v params)));
    mkRule "addr:housenumber" "*"
      (Func2 (fun k v params =>
                let '(ok, params1) := AddHouseNumber v params in
                ("", "", if negb ok then AddHouseName v params1 else params1)));
    mkRule "population" "*"
      (Func2 (fun k v params =>
                ("", "",
                 match to_uint64 v with
                 | Some n => set_rank (population_rank n) params
                 | None => params
                 end)));
    mkRule "ref" "*" (Func2 (fun k v params => ("", "", set_ref v params)));
    mkRule "layer" "*" (Func2 layer_action) ].

(** *** Address post-fix *)

Definition address_postfix (params : FeatureParams) : FeatureParams :=
  if negb (house_IsEmpty params) then
    let '(popped, params1) := PopExactType (Get ENTRANCE) params in
    if popped then AddType (Get ADDRESS) (name_Clear params1)
    else params1
  else params.

(** *** Post-match rules *)

Definition highway_rules : list (Rule FeatureParams) :=
  [ mkRule "oneway" "yes" (Func0 (AddType (Get ONEWAY)));
    mkRule "oneway" "1" (Func0 (AddType (Get ONEWAY)));
    mkRule "oneway" "-1"
      (Func0 (fun params => set_reverseGeometry true (AddType (Get ONEWAY) params)));
    mkRule "access" "private" (Func0 (AddType (Get PRIVATE)));
    mkRule "lit" "~" (Func0 (AddType (Get LIT)));
    mkRule "foot" "!" (Func0 (AddType (Get NOFOOT)));
    mkRule "foot" "~" (Func0 (AddType (Get YESFOOT)));
    mkRule "sidewalk" "~" (Func0 (AddType (Get YESFOOT))) ].

Definition subway_rules : list (Rule FeatureParams) :=
  [ mkRule "network" "London Underground" (Func0 (SetRwSubwayType "london"));
    mkRule "network" "New York City Subway" (Func0 (SetRwSubwayType "newyork"));
    mkRule "network" "Московский метрополитен" (Func0 (SetRwSubwayType "moscow"));
    mkRule "network" "Петербургский метрополитен" (Func0 (SetRwSubwayType "spb"));
    mkRule "network" "Verkehrsverbund Berlin-Brandenburg"
      (Func0 (SetRwSubwayType "berlin"));
    mkRule "network" "Минский метрополитен" (Func0 (SetRwSubwayType "minsk"));
    mkRule "network" "Київський метрополітен" (Func0 (SetRwSubwayType "kiev"));
    mkRule "operator" "КП «Київський метрополітен»" (Func0 (SetRwSubwayType "kiev"));
    mkRule "network" "RATP" (Func0 (SetRwSubwayType "paris"));
    mkRule "network" "Metro de Barcelona" (Func0 (SetRwSubwayType "barcelona"));
    mkRule "network" "Metro de Madrid" (Func0 (SetRwSubwayType "madrid"));
    mkRule "operator" "Metro de Madrid" (Func0 (SetRwSubwayType "madrid"));
    mkRule "network" "Metropolitana di Roma" (Func0 (SetRwSubwayType "roma"));
    mkRule "network" "ATAC" (Func0 (SetRwSubwayType "roma")) ].

Definition railway_rules : list (Rule FeatureParams) :=
  [ mkRule "network" "London Underground" (Func0 (SetRwSubwayType "london")) ].

(** The three rule rounds of the loop over [vTypes]. *)
Inductive Round := HighwayRound | SubwayRound | RailwayRound.

(** Loop state: the three flags, the tags and the record the rounds
    act on, and a ghost log of the rounds run, each with the index [i]
    of the code it ran for (latest first). *)
Record PostState := mkPost {
  highwayDone : bool;
  subwayDone : bool;
  railwayDone : bool;
  post_tags : list Tag;
  post_params : FeatureParams;
  fired : list (nat * Round)
}.

(** The body of [for (i = 0; i < vTypes.size(); ++i)]. *)
Definition postmatch_body (i : nat) (t : Z) (s : PostState) : PostState :=
  let s1 :=
    if negb (highwayDone s) && IsHighway t then
      let '(tags, params) := ApplyRules highway_rules (post_tags s) (post_params s) in
      mkPost true (subwayDone s) (railwayDone s) tags params
             ((i, HighwayRound) :: fired s)
    else s in
  let s2 :=
    if negb (subwayDone s1) && IsRwSubway t then
      let '(tags, params) := ApplyRules subway_rules (post_tags s1) (post_params s1) in
      mkPost (highwayDone s1) true (railwayDone s1) tags params
             ((i, SubwayRound) :: fired s1)
    else s1 in
  if negb (subwayDone s2) && negb (railwayDone s2) && IsRwStation t then
    let '(tags, params) := ApplyRules railway_rules (post_tags s2) (post_params s2) in
    mkPost (highwayDone s2) (subwayDone s2) true tags params
           ((i, RailwayRound) :: fired s2)
  else s2.

Fixpoint postmatch_loop (i : nat) (vTypes : list Z) (s : PostState) : PostState :=
  match vTypes with
  | [] => s
  | t :: rest => postmatch_loop (S i) rest (postmatch_body i t s)
  end.

(** The loop entered with the three flags [false] and a frozen copy of
    the record's codes. *)
Definition postmatch_on (vTypes : list Z) (tags : list Tag) (params : FeatureParams)
  : PostState :=
  postmatch_loop 0 vTypes (mkPost false false false tags params []).

Definition postmatch (tags : list Tag) (params : FeatureParams) : PostState :=
  postmatch_on (m_Types params) tags params.

(** The function up to [FinishAddingTypes] (that call and the metadata
    pass belong to other translation units). *)
Definition run (p : OsmElement) (params : FeatureParams)
  : Outcome (OsmElement * FeatureParams) :=
  let p1 := preprocess p in
  let '(tags2, params2) := ExtractNames.run (m_tags p1) params in
  let '(tags3, params3) := ApplyRules base_rules tags2 params2 in
  match MatchTypes (mkElem tags3) params3 with
  | Done params4 =>
      let params5 := address_postfix params4 in
      let s := postmatch tags3 params5 in
      Done (mkElem (post_tags s), post_params s)
  | CheckFailed => CheckFailed
  | OutOfFuel => OutOfFuel
  end.

End WithExternals.

End GetNameAndType.

(** ** The click check of the assessment tool *)

Module OpenLR.

(** [ClickType], with the enumerators the source returns. *)
Inductive ClickType := Miss | Add | Remove.

Section PointsController.
(** [m2::PointD] with its [operator==], and
    [MercatorBounds::DistanceOnEarth] with the test
    [d < kToleraneDistanceM], the bound being [1.0]. *)
Variable PointD : Type.
Variable point_eq : PointD -> PointD -> bool.
Variable Distance : Type.
Variable DistanceOnEarth : PointD -> PointD -> Distance.
Variable below_tolerance : Distance -> bool.

Definition PointsMatch (a b : PointD) : bool :=
  below_tolerance (DistanceOnEarth a b).

(** One trip through the body of [for (p : reachablePoints)]: the [if]
    governs an empty statement (the [;] after its condition), the
    [return] that follows is a statement of its own. *)
Definition CheckClick_loop (clickPoint : PointD) (reachablePoints : list PointD)
  : option ClickType :=
  match reachablePoints with
  | [] => None
  | p :: _ =>
      let _ := if PointsMatch clickPoint p then tt else tt in
      Some Add
  end.

Definition CheckClick (clickPoint lastClickedPoint : PointD)
  (reachablePoints : list PointD) : ClickType :=
  if point_eq clickPoint lastClickedPoint then Remove
  else match CheckClick_loop clickPoint reachablePoints with
       | Some r => r
       | None => Miss
       end.

(** What the claim describes, in its words: [Add] exactly when some
    reachable point matches the click, [Miss] otherwise. *)
Definition CheckClick_claimed (clickPoint lastClickedPoint : PointD)
  (reachablePoints : list PointD) : ClickType :=
  if point_eq clickPoint lastClickedPoint then Remove
  else if existsb (PointsMatch clickPoint) reachablePoints then Add
  else Miss.

End PointsController.

End OpenLR.

(** ** The points controller of the assessment tool *)

(** What the points controller asks of the framework, the index and the
    features: points and distances as in [OpenLR];
    [GetFeatureType() == feature::GEOM_LINE]; [ftypes::GetHighwayClass]
    with the tests against [HighwayClass::Error] and
    [HighwayClass::Pedestrian]; [GetID]; the points [ForEachPoint] visits
    at the upper scale and at [BEST_GEOMETRY]; [rect.IsPointInside] for
    the current viewport; [operator<] on distances and
    [numeric_limits<double>::max()]; a default-constructed [m2::PointD]. *)
Class Framework := {
  PointD : Type;
  Distance : Type;
  DistanceOnEarth : PointD -> PointD -> Distance;
  below_tolerance : Distance -> bool;
  FeatureType : Type;
  FeatureID : Type;
  is_GEOM_LINE : FeatureType -> bool;
  HighwayClass : Type;
  GetHighwayClass : FeatureType -> HighwayClass;
  is_Error : HighwayClass -> bool;
  is_Pedestrian : HighwayClass -> bool;
  GetID : FeatureType -> FeatureID;
  points_upper_scale : FeatureType -> list PointD;
  points_best_geometry : FeatureType -> list PointD;
  IsPointInside : PointD -> bool;
  distance_lt : Distance -> Distance -> bool;
  distance_max : Distance;
  default_point : PointD
}.

Module PointsController.

Section WithFramework.
Context `{Framework}.

Definition PointsMatch : PointD -> PointD -> bool :=
  OpenLR.PointsMatch PointD Distance DistanceOnEarth below_tolerance.

(** The lambda [pushPoint] of [GetAllJunctionPointsInViewPort], acting
    on the captured vector [points]. *)
Definition pushPoint (points : list PointD) (point : PointD) : list PointD :=
  if negb (IsPointInside point) then points
  else if existsb (PointsMatch point) points then points
  else points ++ [point].

(** The lambda [pushFeaturePoints]. *)
Definition pushFeaturePoints (points : list PointD) (ft : FeatureType) : list PointD :=
  if negb (is_GEOM_LINE ft) then points
  else
    let roadClass := GetHighwayClass ft in
    if is_Error roadClass || is_Pedestrian roadClass then points
    else fold_left pushPoint (points_upper_scale ft) points.

(** [features] are the features [m_index.ForEachInRect] visits. *)
Definition GetAllJunctionPointsInViewPort (features : list FeatureType) : list PointD :=
  fold_left pushFeaturePoints features [].

(** State of the loops of [GetFeaturesPointsByPoint]: the vector
    [points], [pointOnFt], and per feature [pointIndex] and
    [minDistance]. *)
Record ByPointState := mkByPoint {
  found_points : list (FeatureID * nat);
  pointOnFt : PointD;
  pointIndex : nat;
  minDistance : Distance
}.

(** The inner lambda, called on each point [fp] of the feature [ft]. *)
Definition visit_point (p : PointD) (ft : FeatureType) (s : ByPointState) (fp : PointD)
  : ByPointState :=
  let distance := DistanceOnEarth fp p in
  if PointsMatch fp p && distance_lt distance (minDistance s) then
    mkByPoint (found_points s ++ [(GetID ft, pointIndex s)]) fp (S (pointIndex s)) distance
  else
    mkByPoint (found_points s) (pointOnFt s) (S (pointIndex s)) (minDistance s).

(** The outer lambda, called on each feature at the point. *)
Definition visit_feature (p : PointD) (s : ByPointState) (ft : FeatureType) : ByPointState :=
  if negb (is_GEOM_LINE ft) then s
  else
    fold_left (visit_point p ft) (points_best_geometry ft)
      (mkByPoint (found_points s) (pointOnFt s) 0 distance_max).

(** Returns the vector and the new value of the in-out parameter [p];
    [features] are the features [ForEachFeatureAtPoint] visits. *)
Definition GetFeaturesPointsByPoint (features : list FeatureType) (p : PointD)
  : list (FeatureID * nat) * PointD :=
  let s := fold_left (visit_feature p) features (mkByPoint [] default_point 0 distance_max) in
  (found_points s, pointOnFt s).

(** [GetReachablePoints]: the end points of the outgoing edges the road
    graph returns for the junction at [p]. *)
Definition GetReachablePoints {Edge : Type} (GetOutgoingEdges : PointD -> list Edge)
  (GetEndJunctionPoint : Edge -> PointD) (p : PointD) : list PointD :=
  map GetEndJunctionPoint (GetOutgoingEdges p).

End WithFramework.

End PointsController.

(** ** A small instance of the collaborators *)

(** A five-root taxonomy and an encoder, used to run the model on
    concrete elements. *)
Module Sample.
Local Open Scope Z_scope.

#[warnings="-register-all"] Inductive Tree := Node (label : string) (objs : list Tree).

Definition label_of (t : Tree) : string := let 'Node l _ := t in l.
Definition objs_of (t : Tree) : list Tree := let 'Node _ c := t in c.

Fixpoint find_from (i : nat) (objs : list Tree) (s : string) : option (Tree * nat) :=
  match objs with
  | [] => None
  | o :: rest => if String.eqb (label_of o) s then Some (o, i) else find_from (S i) rest s
  end.

(** Modelled from the spec: [ClassifObject::BinaryFind] is an exact-match
    lookup among the children, giving the child and its index. *)
Definition find_child (t : Tree) (s : string) : option (Tree * nat) :=
  find_from 0 (objs_of t) s.

Definition root : Tree :=
  Node "world"
    [ Node "building" [ Node "address" [] ];
      Node "entrance" [];
      Node "highway" [ Node "primary" []; Node "residential" [] ];
      Node "hwtag" [ Node "lit" []; Node "nofoot" []; Node "oneway" [];
                     Node "private" []; Node "yesfoot" [] ];
      Node "railway" [ Node "station" [ Node "subway" [] ] ] ].

(** Modelled from the spec: a type code packs the path, one fixed-width
    field per level holding index + 1 (0 for an absent level), the
    shallowest level in the most significant field.  Six bits a field
    and five fields are this instance's choice. *)
Definition bits : Z := 6.
Definition levels : nat := 5.

Definition field (t : Z) (lvl : nat) : Z :=
  Z.land (Z.shiftr t (bits * Z.of_nat (levels - 1 - lvl))) 63.

Fixpoint depth_from (t : Z) (lvl n : nat) : nat :=
  match n with
  | O => lvl
  | S n' => if field t lvl =? 0 then lvl else depth_from t (S lvl) n'
  end.

Definition depth (t : Z) : nat := depth_from t 0 levels.

Definition empty_code : Z := 0.

Definition push (t : Z) (idx : nat) : Z :=
  Z.lor t (Z.shiftl (Z.of_nat idx + 1) (bits * Z.of_nat (levels - 1 - depth t))).

Definition trunc (t : Z) (n : nat) : Z :=
  let drop := bits * Z.of_nat (levels - n) in
  Z.shiftl (Z.shiftr t drop) drop.

Fixpoint code_of_path (fuel : nat) (cur : Tree) (path : list string) (t : Z) : Z :=
  match fuel, path with
  | S f, s :: rest =>
      match find_child cur s with
      | Some (o, i) => code_of_path f o rest (push t i)
      | None => t
      end
  | _, _ => t
  end.

Definition type_by_path (path : list string) : Z :=
  code_of_path (List.length path) root path empty_code.

Fixpoint all_digits (s : string) : bool :=
  match s with
  | EmptyString => true
  | String c r =>
      match Num.digit c with Some _ => all_digits r | None => false end
  end.

Definition bare_integer (s : string) : bool :=
  match s with
  | EmptyString => false
  | String "-"%char r => negb (Str.empty r) && all_digits r
  | _ => all_digits s
  end.

(** The largest [r] with [1.1 ^ r <= n], searched upwards from [r] with
    [pw11 = 11 ^ r] and [npw10 = n * 10 ^ r]. *)
Fixpoint log_1_1_from (fuel : nat) (r pw11 npw10 : Z) : Z :=
  match fuel with
  | O => r
  | S f =>
      if 11 * pw11 <=? 10 * npw10 then log_1_1_from f (r + 1) (11 * pw11) (10 * npw10)
      else r
  end.

(** [static_cast<uint8_t>(log(double(n)) / log(1.1))] for a 64-bit [n],
    the quotient taken exactly; the low eight bits of the integer part
    are this instance's choice where it exceeds 255, and 0 at [n = 0]. *)
Definition log_1_1 (n : Z) : Z :=
  if n <=? 0 then 0 else log_1_1_from 466 0 1 n mod 256.

Definition set_house (s : string) (p : FeatureParams) : FeatureParams :=
  mkParams (m_Types p) (name p) s (flats p) (rank p) (ref p) (layer p)
           (m_reverseGeometry p).

(** House names and numbers go to [house]; a number is accepted when
    it starts with a digit. *)
Definition starts_with_digit (s : string) : bool :=
  match s with
  | String c _ => match Num.digit c with Some _ => true | None => false end
  | EmptyString => false
  end.

Definition add_house_number (s : string) (p : FeatureParams) : bool * FeatureParams :=
  if starts_with_digit s then (true, set_house s p) else (false, p).

#[export] Instance externals : Externals := {|
  ClassifObject := Tree;
  GetRoot := root;
  BinaryFind := find_child;
  GetTypeByPath := type_by_path;
  GetEmptyValue := empty_code;
  PushValue := push;
  TruncValue := trunc;
  IsDrawableAny := fun t => negb (t =? type_by_path ["building"]);
  is_number := bare_integer;
  to_uint64 := fun s => if all_digits s && negb (Str.empty s)
                        then Some (Num.digits s 0) else None;
  population_rank := log_1_1;
  NFKC := fun s => s;
  AddHouseName := set_house;
  AddHouseNumber := add_house_number;
  AddStreetAddress := fun _ p => p;
  SetRwSubwayType := fun city p =>
    AddType (code_of_path 4 root ["railway"; "station"; "subway"; city] empty_code) p
|}.

End Sample.

(** * Vocabulary of the statements *)

(** An empty output record. *)
Definition params0 : FeatureParams := mkParams [] ∅ "" "" 0 "" 0 false.

(** Tags the iterations present to their functor. *)
Definition visible (e : Tag) : bool := negb (IgnoreTag (key e) (value e)).

Definition visible_count (tags : list Tag) : nat :=
  length (List.filter visible tags).

(** The result and the functor state of an iteration, without the tags. *)
Definition outcome_of {R St} (x : R * list Tag * St) : R * St := (fst (fst x), snd x).

(** [tags] with a cleared tag put back at position [n]. *)
Definition with_cleared_at (n : nat) (tags : list Tag) : list Tag :=
  firstn n tags ++ cleared :: skipn n tags.

(** Every rule of the table has a non-empty key pattern. *)
Definition keys_nonempty {St} (rules : list (TagProcessor.Rule St)) : bool :=
  forallb (fun r => negb (Str.empty (TagProcessor.rkey r))) rules.

(** The action of a rule as a function of the captured state, for a
    table of [void()] callbacks. *)
Definition act0 {St} (rule : TagProcessor.Rule St) (st : St) : St :=
  match TagProcessor.func rule with
  | TagProcessor.Func0 f => f st
  | TagProcessor.Func2 _ => st
  end.

Definition all_Func0 {St} (rules : list (TagProcessor.Rule St)) : bool :=
  forallb (fun r => match TagProcessor.func r with
                    | TagProcessor.Func0 _ => true
                    | TagProcessor.Func2 _ => false
                    end) rules.

(** Indices of presented tags not yet in the skip set: the measure that
    every successful scan decreases. *)
Definition remaining (tags : list Tag) (skip : gset nat) : nat :=
  size (set_seq 0 (visible_count tags) ∖ skip : gset nat).

(** A list of sets in which each one is strictly included in the next. *)
Fixpoint growing (l : list (gset nat)) : Prop :=
  match l with
  | s :: (s' :: _) as rest => s ⊂ s' /\ growing rest
  | _ => True
  end.

(** The language key a tag key stands for, when the key denotes a name:
    first token [int_name], or first token [name] with an optional
    language suffix. *)
Definition lang_of_key (k : string) : option string :=
  match SimpleTokenizer.tokens k with
  | [] => None
  | tok :: more =>
      if String.eqb tok "int_name" then Some "int_name"
      else if String.eqb tok "name" then
        let lang := match more with t :: _ => t | [] => "default" end in
        Some (if String.eqb lang "ar1" then "ar" else lang)
      else None
  end.

(** The value a [layer] tag asks for: parsed, converted to the field's
    type, clamped. *)
Definition layer_of (v : string) : Z :=
  Num.clamp (Num.to_int8 (Num.atoi (Str.c_str v))) (-10) 10.

Definition Round_eqb (a b : GetNameAndType.Round) : bool :=
  match a, b with
  | GetNameAndType.HighwayRound, GetNameAndType.HighwayRound
  | GetNameAndType.SubwayRound, GetNameAndType.SubwayRound
  | GetNameAndType.RailwayRound, GetNameAndType.RailwayRound => true
  | _, _ => false
  end.

(** The indices of the codes a round ran for, latest first. *)
Definition fired_for (r : GetNameAndType.Round) (log : list (nat * GetNameAndType.Round))
  : list nat :=
  map fst (List.filter (fun x => Round_eqb (snd x) r) log).

Section Rounds_vocabulary.
Context `{Externals}.
Import GetNameAndType.

(** The rounds the body runs for the code [t]. *)
Definition runs_highway (t : Z) (s : PostState) : bool :=
  negb (highwayDone s) && CachedTypes.IsHighway t.
Definition runs_subway (t : Z) (s : PostState) : bool :=
  negb (subwayDone s) && CachedTypes.IsRwSubway t.
Definition runs_railway (t : Z) (s : PostState) : bool :=
  negb (subwayDone s || runs_subway t s) && negb (railwayDone s)
  && CachedTypes.IsRwStation t.

Definition runs (r : Round) (t : Z) (s : PostState) : bool :=
  match r with
  | HighwayRound => runs_highway t s
  | SubwayRound => runs_subway t s
  | RailwayRound => runs_railway t s
  end.

(** The once-only flag of a round and the test on the code it goes with. *)
Definition done_flag (r : Round) (s : PostState) : bool :=
  match r with
  | HighwayRound => highwayDone s
  | SubwayRound => subwayDone s
  | RailwayRound => railwayDone s
  end.

Definition in_category (r : Round) (t : Z) : bool :=
  match r with
  | HighwayRound => CachedTypes.IsHighway t
  | SubwayRound => CachedTypes.IsRwSubway t
  | RailwayRound => CachedTypes.IsRwStation t
  end.

(** What holds of the loop state once the codes [done] are processed. *)
Record rounds_inv (done : list Z) (s : PostState) : Prop := {
  inv_flag : forall r, done_flag r s = false -> fired_for r (fired s) = [];
  inv_once : forall r, length (fired_for r (fired s)) <= 1;
  inv_order : forall i j, In i (fired_for SubwayRound (fired s)) ->
                          In j (fired_for RailwayRound (fired s)) -> j < i;
  inv_code : forall r i, In i (fired_for r (fired s)) ->
                         exists t, done !! i = Some t /\ in_category r t = true
}.

End Rounds_vocabulary.

(** Splits the result of a [ForEachTag_loop] run named in [Hrun]. *)
Ltac destruct_loop Hrun :=
  match type of Hrun with
  | context [ForEachTag_loop ?f ?r ?t ?s] =>
      destruct (ForEachTag_loop f r t s) as [[r0 rest0] [[id0 skip0] st0]] eqn:Hrec
  end.

(** Points on an integer grid, distances as squared grid distance. *)
Definition grid_dist (a b : Z * Z) : Z :=
  ((fst a - fst b) * (fst a - fst b) + (snd a - snd b) * (snd a - snd b))%Z.
Definition grid_eq (a b : Z * Z) : bool :=
  Z.eqb (fst a) (fst b) && Z.eqb (snd a) (snd b).

(** ** Vocabulary of the further properties *)

(** The [layer] literal a tag asks the preprocessing to synthesize:
    ["1"] for [bridge=yes], ["-1"] for [tunnel=yes]. *)
Definition bridge_or_tunnel (e : Tag) : option string :=
  if Str.strcmp_eq (key e) "bridge" && String.eqb (value e) "yes" then Some "1"
  else if Str.strcmp_eq (key e) "tunnel" && String.eqb (value e) "yes" then Some "-1"
  else None.

(** The literal of the last such tag of the element, if any. *)
Fixpoint synthesized_layer (tags : list Tag) : option string :=
  match tags with
  | [] => None
  | e :: rest =>
      match synthesized_layer rest with
      | Some l => Some l
      | None => bridge_or_tunnel e
      end
  end.

(** Whether some tag has the key [layer], read as a C string. *)
Definition has_layer_tag (tags : list Tag) : bool :=
  existsb (fun e => Str.strcmp_eq (key e) "layer") tags.

(** Keys of the tags whose value the base rules move into the record. *)
Definition stored_keys : list string :=
  ["addr:housename"; "addr:street"; "addr:flats"; "addr:housenumber";
   "population"; "ref"].

(** What the base rules make of a tag. *)
Definition base_tag (e : Tag) : Tag :=
  let k := Str.c_str (key e) in
  if (String.eqb k "atm" || String.eqb k "restaurant") && String.eqb (value e) "yes"
  then mkTag "amenity" (key e)
  else if String.eqb k "hotel" && String.eqb (value e) "yes" then mkTag "tourism" (key e)
  else if existsb (String.eqb k) stored_keys then cleared
  else e.

(** The language key under which the extractor takes a tag for a name:
    the tag is presented, its value is not empty, its key denotes a name. *)
Definition name_lang_of_tag (e : Tag) : option string :=
  if visible e && negb (Str.empty (value e)) then lang_of_key (key e) else None.

(** Whether a tag of [tags] is a name tag of the language [l]. *)
Definition has_name_lang (l : string) (tags : list Tag) : bool :=
  existsb (fun e => match name_lang_of_tag e with
                    | Some l' => String.eqb l l'
                    | None => false
                    end) tags.

(** The tags the extractor stores, with their language keys, in tag
    order: of each language the first name tag that is not in [saved]. *)
Fixpoint stored_names (saved : gset string) (tags : list Tag) : list (string * Tag) :=
  match tags with
  | [] => []
  | e :: rest =>
      match name_lang_of_tag e with
      | Some l =>
          if decide (l ∈ saved) then stored_names saved rest
          else (l, e) :: stored_names ({[l]} ∪ saved) rest
      | None => stored_names saved rest
      end
  end.

(** Tags the walker's scans can hand to a matching functor: presented by
    [ForEachTag] and without ["name"] in the key. *)
Definition matchable (e : Tag) : bool :=
  visible e && negb (Str.contains "name" (key e)).

Section Chain_vocabulary.
Context `{Externals}.

(** A path of the classificator below [c]: each object is the child
    [BinaryFind] returns for some label of the object before it. *)
Inductive chain : ClassifObject -> list ClassifObjectPtr -> Prop :=
| chain_nil c : chain c []
| chain_cons c s e rest :
    BinaryFind c s = Some e -> chain (fst e) rest -> chain c (e :: rest).

(** The object a path below [c] ends in. *)
Definition end_of (c : ClassifObject) (path : list ClassifObjectPtr) : ClassifObject :=
  match last path with
  | Some back => fst back
  | None => c
  end.

End Chain_vocabulary.

(** The tag that asks for reversed geometry. *)
Definition is_oneway_reverse (e : Tag) : bool :=
  Str.strcmp_eq (key e) "oneway" && String.eqb (value e) "-1".

(** *** The points controller *)

Section PointsController_vocabulary.
Context `{Framework}.
Import PointsController.

(** Features whose points the junction scan takes. *)
Definition junction_feature (ft : FeatureType) : bool :=
  is_GEOM_LINE ft
  && negb (is_Error (GetHighwayClass ft) || is_Pedestrian (GetHighwayClass ft)).

(** Points inside the viewport, no point matching an earlier one. *)
Definition separated (points : list PointD) : Prop :=
  Forall (fun q => IsPointInside q = true) points
  /\ forall i j a b, i < j -> points !! i = Some a -> points !! j = Some b ->
                     PointsMatch b a = false.

(** [pt] is among [points] or matches one of them. *)
Definition covered (points : list PointD) (pt : PointD) : Prop :=
  In pt points \/ exists q, In q points /\ PointsMatch pt q = true.

(** The entry [(id, i)] names a point of a line feature of [features]
    that matches [p]. *)
Definition names_matching_point (features : list FeatureType) (p : PointD)
  (entry : FeatureID * nat) : Prop :=
  exists ft fp, In ft features /\ is_GEOM_LINE ft = true /\ GetID ft = fst entry
                /\ points_best_geometry ft !! snd entry = Some fp
                /\ PointsMatch fp p = true.

(** What the loops of [GetFeaturesPointsByPoint] keep. *)
Definition by_point_inv (features : list FeatureType) (p : PointD) (s : ByPointState)
  : Prop :=
  Forall (names_matching_point features p) (found_points s)
  /\ (found_points s = [] -> pointOnFt s = default_point)
  /\ (found_points s <> [] -> PointsMatch (pointOnFt s) p = true).

End PointsController_vocabulary.

(** *** Call logs of the tag iterations *)

(** An entry of a call log: the key and the value a functor was handed,
    and whether its result counted as a match ([if (res)]). *)
Definition Call : Type := (string * string * bool)%type.

(** A functor made to keep a log of its calls. *)
Definition logged {R : Type} `{TResult R} {St : Type} (toDo : @ToDo R St)
  : @ToDo R (St * list Call) :=
  fun k v s =>
    let '(r, kv, st') := toDo k v (fst s) in
    (r, kv, (st', snd s ++ [(k, v, to_bool r)])).

(** The same for a functor that takes its arguments by const reference. *)
Definition logged_ex {R : Type} `{TResult R} {St : Type}
  (toDo : string -> string -> St -> R * St)
  : string -> string -> St * list Call -> R * (St * list Call) :=
  fun k v s =>
    let '(r, st') := toDo k v (fst s) in
    (r, (st', snd s ++ [(k, v, to_bool r)])).

Definition no_match (e : Tag) : Call := (key e, value e, false).

(** The log of a scan that hands the tags of [l] to its functor, in
    order, and stops at the first match: with a match, calls without a
    match on the tags before some tag of [l] and a matching call on that
    tag; without one, a call without a match on every tag of [l]. *)
Definition scan_log (l : list Tag) (matched : bool) (log : list Call) : Prop :=
  if matched then
    exists init e rest,
      l = init ++ e :: rest /\ log = map no_match init ++ [(key e, value e, true)]
  else log = map no_match l.

(** The tags a scan of [ForEachTagEx] can hand to its functor: those
    [IgnoreTag] lets through, numbered from [id] in tag order, whose
    number is not in [skip] and whose key does not contain ["name"]. *)
Fixpoint offered (id : nat) (skip : gset nat) (tags : list Tag) : list Tag :=
  match tags with
  | [] => []
  | e :: rest =>
      if visible e then
        if bool_decide (id ∈ skip) || Str.contains "name" (key e)
        then offered (S id) skip rest
        else e :: offered (S id) skip rest
      else offered id skip rest
  end.

(** *** The name pass *)

(** The first tag of [tags] that is a name tag of the language [l]. *)
Definition first_name_tag (l : string) (tags : list Tag) : option Tag :=
  List.find (fun e => match name_lang_of_tag e with
                      | Some l' => String.eqb l l'
                      | None => false
                      end) tags.

(** * Properties *)

(** ** Strings *)

Lemma c_str_nul_free s : Str.nul_free s = true -> Str.c_str s = s.
Proof.
  induction s as [|c r IH]; simpl; [reflexivity|].
  destruct (Ascii.eqb c "000"%char); simpl; [discriminate|].
  intros Hr. now rewrite IH.
Qed.

(** On a key without NUL bytes the [strcmp] test is string equality. *)
Lemma strcmp_eq_exact k lit :
  Str.nul_free k = true -> (Str.strcmp_eq k lit = true <-> k = lit).
Proof.
  intros Hk. unfold Str.strcmp_eq. rewrite (c_str_nul_free k Hk).
  apply String.eqb_eq.
Qed.

(** ** The tag iterations *)

Lemma visible_count_le tags : visible_count tags <= length tags.
Proof. unfold visible_count. apply List.filter_length_le. Qed.

Lemma visible_count_cons e rest :
  visible_count (e :: rest)
  = if IgnoreTag (key e) (value e) then visible_count rest else S (visible_count rest).
Proof.
  unfold visible_count. simpl. unfold visible at 1.
  destruct (IgnoreTag (key e) (value e)); reflexivity.
Qed.

Section ForEachTagEx_facts.
Context {R : Type} `{TResult R} {St : Type}.
Variable toDo : string -> string -> St -> R * St.
(** [P] is kept by every call of the functor, [Q] holds after a call
    that returned a true result. *)
Variables P Q : St -> Prop.
Hypothesis toDo_keeps :
  forall k v s r s', toDo k v s = (r, s') -> P s ->
                     P s' /\ (to_bool r = true -> Q s').

(** One call of the lambda: the counter advances, the skip set gains at
    most the current index, and gains it when the result is true. *)
Lemma ForEachTagEx_lambda_spec k v id skip st r id' skip' st' :
  P st ->
  ForEachTagEx_lambda toDo k v (id, skip, st) = (r, (id', skip', st')) ->
  id' = S id /\ P st' /\ skip ⊆ skip'
  /\ (forall x, x ∈ skip' -> x ∈ skip \/ x = id)
  /\ (to_bool r = true -> Q st' /\ (id ∉ skip) /\ id ∈ skip').
Proof.
  intros HP Hrun. unfold ForEachTagEx_lambda in Hrun.
  destruct (decide (id ∈ skip)) as [Hin|Hnin].
  { injection Hrun as <- <- <- <-.
    split; [reflexivity|]. split; [exact HP|]. split; [reflexivity|].
    split; [intros x Hx; left; exact Hx|].
    rewrite default_false. discriminate. }
  destruct (Str.contains "name" k).
  { injection Hrun as <- <- <- <-.
    split; [reflexivity|]. split; [exact HP|]. split; [apply union_subseteq_r|].
    split.
    - intros x Hx. apply elem_of_union in Hx as [Hx|Hx];
        [right; apply elem_of_singleton in Hx; exact Hx | left; exact Hx].
    - rewrite default_false. discriminate. }
  destruct (toDo k v st) as [res1 st1] eqn:Hcall.
  destruct (toDo_keeps _ _ _ _ _ Hcall HP) as [HP1 HQ1].
  destruct (to_bool res1) eqn:Hb; injection Hrun as <- <- <- <-.
  - split; [reflexivity|]. split; [exact HP1|]. split; [apply union_subseteq_r|].
    split.
    + intros x Hx. apply elem_of_union in Hx as [Hx|Hx];
        [right; apply elem_of_singleton in Hx; exact Hx | left; exact Hx].
    + intros _. split; [exact (HQ1 eq_refl)|]. split; [exact Hnin|].
      apply elem_of_union; left. apply elem_of_singleton. reflexivity.
  - split; [reflexivity|]. split; [exact HP1|]. split; [reflexivity|].
    split; [intros x Hx; left; exact Hx|].
    rewrite Hb. discriminate.
Qed.

Lemma ForEachTagEx_loop_spec tags : forall res id skip st r tags' id' skip' st',
  to_bool res = false -> P st ->
  ForEachTag_loop (const_ToDo (ForEachTagEx_lambda toDo)) res tags (id, skip, st)
    = (r, tags', (id', skip', st')) ->
  P st' /\ skip ⊆ skip'
  /\ (forall x, x ∈ skip' -> x ∈ skip \/ (id <= x /\ x < id + visible_count tags))
  /\ (to_bool r = true ->
      Q st' /\ exists x, (x ∉ skip) /\ x ∈ skip' /\ id <= x /\ x < id + visible_count tags).
Proof.
  induction tags as [|e rest IH]; intros res id skip st r tags' id' skip' st' Hres HP Hrun.
  - simpl in Hrun. injection Hrun as <- <- <- <- <-.
    split; [exact HP|]. split; [reflexivity|]. split; [intros x Hx; left; exact Hx|].
    rewrite Hres; discriminate.
  - simpl in Hrun. rewrite visible_count_cons.
    destruct (IgnoreTag (key e) (value e)) eqn:Hig.
    + (* an ignored tag: neither the functor nor the counter sees it *)
      destruct_loop Hrun. injection Hrun as <- <- <- <- <-.
      exact (IH _ _ _ _ _ _ _ _ _ Hres HP Hrec).
    + unfold const_ToDo at 1 in Hrun.
      destruct (ForEachTagEx_lambda toDo (key e) (value e) (id, skip, st))
        as [res1 [[id1 skip1] st1]] eqn:Hlam.
      destruct (ForEachTagEx_lambda_spec _ _ _ _ _ _ _ _ _ HP Hlam)
        as (-> & HP1 & Hsub1 & Hbnd1 & Htrue1).
      destruct (to_bool res1) eqn:Hb.
      * (* the scan stops at this tag *)
        injection Hrun as <- <- <- <- <-.
        split; [exact HP1|]. split; [exact Hsub1|]. split.
        -- intros x Hx. destruct (Hbnd1 x Hx) as [Hx'| ->]; [left; exact Hx' | right; lia].
        -- intros _. destruct (Htrue1 eq_refl) as (HQ & Hnin & Hin).
           split; [exact HQ|]. exists id.
           split; [exact Hnin|]. split; [exact Hin|]. lia.
      * (* the scan goes on with the next index *)
        destruct_loop Hrun. injection Hrun as <- <- <- <- <-.
        destruct (IH _ _ _ _ _ _ _ _ _ Hb HP1 Hrec) as (HP' & Hsub & Hbnd & Htrue).
        split; [exact HP'|]. split; [transitivity skip1; assumption|]. split.
        -- intros x Hx. destruct (Hbnd x Hx) as [Hx'|Hx']; [|right; lia].
           destruct (Hbnd1 x Hx') as [Hx''| ->]; [left; exact Hx'' | right; lia].
        -- intros Ht. destruct (Htrue Ht) as (HQ & x & Hx1 & Hx2 & Hx3 & Hx4).
           split; [exact HQ|]. exists x.
           split; [intros Hc; apply Hx1, Hsub1, Hc|]. split; [exact Hx2|]. lia.
Qed.

Lemma ForEachTagEx_spec tags skip st r skip' st' :
  P st ->
  ForEachTagEx toDo tags skip st = (r, skip', st') ->
  P st' /\ skip ⊆ skip'
  /\ (forall x, x ∈ skip' -> x ∈ skip \/ x < visible_count tags)
  /\ (to_bool r = true ->
      Q st' /\ exists x, (x ∉ skip) /\ x ∈ skip' /\ x < visible_count tags).
Proof.
  intros HP Hrun. unfold ForEachTagEx, ForEachTag in Hrun.
  destruct_loop Hrun. injection Hrun as <- <- <-.
  destruct (ForEachTagEx_loop_spec _ _ _ _ _ _ _ _ _ _ default_false HP Hrec)
    as (HP' & Hsub & Hbnd & Htrue).
  split; [exact HP'|]. split; [exact Hsub|]. split.
  - intros x Hx. destruct (Hbnd x Hx) as [Hx'|Hx']; [left; exact Hx' | right; lia].
  - intros Ht. destruct (Htrue Ht) as (HQ & x & Hx1 & Hx2 & Hx3 & Hx4).
    split; [exact HQ|]. exists x. split; [exact Hx1|]. split; [exact Hx2|]. lia.
Qed.
End ForEachTagEx_facts.

(** ** Termination of [MatchTypes] *)

Lemma remaining_le tags skip : remaining tags skip <= length tags.
Proof.
  unfold remaining.
  transitivity (size (set_seq 0 (visible_count tags) : gset nat)).
  - apply subseteq_size. apply subseteq_difference_l. reflexivity.
  - rewrite size_set_seq. apply visible_count_le.
Qed.

Lemma remaining_mono tags skip skip' :
  skip ⊆ skip' -> remaining tags skip' <= remaining tags skip.
Proof.
  intros Hsub. unfold remaining. apply subseteq_size.
  intros x Hx. apply elem_of_difference in Hx as [Hx1 Hx2].
  apply elem_of_difference. split; [exact Hx1|].
  intros Hc. apply Hx2, Hsub, Hc.
Qed.

Lemma remaining_lt tags skip skip' x :
  skip ⊆ skip' -> x ∉ skip -> x ∈ skip' -> x < visible_count tags ->
  remaining tags skip' < remaining tags skip.
Proof.
  intros Hsub Hx1 Hx2 Hx3. unfold remaining. apply subset_size.
  split.
  - intros y Hy. apply elem_of_difference in Hy as [Hy1 Hy2].
    apply elem_of_difference. split; [exact Hy1|].
    intros Hc. apply Hy2, Hsub, Hc.
  - intros Hc.
    assert (Hin : x ∈ (set_seq 0 (visible_count tags) ∖ skip : gset nat)).
    { apply elem_of_difference. split; [|exact Hx1].
      apply elem_of_set_seq. lia. }
    apply Hc in Hin. apply elem_of_difference in Hin as [_ Hin]. exact (Hin Hx2).
Qed.

Section MatchTypes_facts.
Context `{Externals}.

Lemma matchTagToClassificator_keeps current k v path r path' :
  matchTagToClassificator current k v path = (r, path') ->
  path <> [] -> path' <> [] /\ (to_bool r = true -> True).
Proof.
  unfold matchTagToClassificator. intros Hm Hne.
  split; [|trivial].
  destruct (BinaryFind current k) as [elem|]; [|injection Hm as <- <-; exact Hne].
  destruct (NeedMatchValue k v); [destruct (BinaryFind (fst elem) v)|];
    injection Hm as <- <-; intros Hc; apply app_eq_nil in Hc as [Hc _];
    try apply app_eq_nil in Hc as [Hc _]; contradiction.
Qed.

Lemma matchTagToClassificator_found current k v path r path' :
  matchTagToClassificator current k v path = (r, path') ->
  True -> True /\ (to_bool r = true -> path' <> []).
Proof.
  unfold matchTagToClassificator. intros Hm _. split; [trivial|].
  destruct (BinaryFind current k) as [elem|]; [|injection Hm as <- <-; discriminate].
  intros _.
  destruct (NeedMatchValue k v); [destruct (BinaryFind (fst elem) v)|];
    injection Hm as <- <-; intros Hc; apply app_eq_nil in Hc as [Hc Hc'];
    try apply app_eq_nil in Hc as [Hc Hc'']; discriminate.
Qed.

Lemma matchValue_keeps current k v (u : unit) r u' :
  matchValue current k v u = (r, u') -> True -> True /\ (to_bool r = true -> True).
Proof. intros _ _. split; trivial. Qed.

Lemma extendPath_spec tags fuel : forall skip path,
  path <> [] -> remaining tags skip < fuel ->
  exists skip' path',
    extendPath fuel tags skip path = Done (skip', path')
    /\ skip ⊆ skip'
    /\ (forall x, x ∈ skip' -> x ∈ skip \/ x < visible_count tags).
Proof.
  induction fuel as [|fuel IH]; intros skip path Hne Hfuel; [lia|].
  simpl. destruct (last path) as [back|] eqn:Hlast.
  2:{ apply last_None in Hlast. contradiction. }
  destruct (ForEachTagEx (matchValue (fst back)) tags skip tt)
    as [[pObj skip1] u1] eqn:Hval.
  destruct (ForEachTagEx_spec _ _ _ (matchValue_keeps (fst back)) _ _ _ _ _ _ I Hval)
    as (_ & Hsub1 & Hbnd1 & Htrue1).
  destruct pObj as [o|].
  - destruct (Htrue1 eq_refl) as (_ & x & Hx1 & Hx2 & Hx3).
    assert (Hlt := remaining_lt tags _ _ _ Hsub1 Hx1 Hx2 Hx3).
    destruct (IH skip1 (path ++ [o])) as (skip' & path' & Hrun & Hsub & Hbnd).
    { intros Hc. apply app_eq_nil in Hc as [_ Hc]. discriminate. }
    { lia. }
    exists skip', path'. split; [exact Hrun|].
    split; [transitivity skip1; assumption|].
    intros y Hy. destruct (Hbnd y Hy) as [Hy'|Hy']; [apply Hbnd1, Hy' | right; exact Hy'].
  - destruct (ForEachTagEx (matchTagToClassificator (fst back)) tags skip1 path)
      as [[found skip2] path2] eqn:Hkey.
    destruct (ForEachTagEx_spec _ _ _ (matchTagToClassificator_keeps (fst back))
                _ _ _ _ _ _ Hne Hkey) as (Hne2 & Hsub2 & Hbnd2 & Htrue2).
    assert (Hbnd12 : forall y, y ∈ skip2 -> y ∈ skip \/ y < visible_count tags).
    { intros y Hy. destruct (Hbnd2 y Hy) as [Hy'|Hy']; [apply Hbnd1, Hy' | right; exact Hy']. }
    destruct found; simpl.
    + destruct (Htrue2 eq_refl) as (_ & x & Hx1 & Hx2 & Hx3).
      assert (Hlt := remaining_lt tags _ _ _ Hsub2 Hx1 Hx2 Hx3).
      assert (Hle := remaining_mono tags _ _ Hsub1).
      destruct (IH skip2 path2 Hne2) as (skip' & path' & Hrun & Hsub & Hbnd); [lia|].
      exists skip', path'. split; [exact Hrun|].
      split; [transitivity skip1; [assumption|]; transitivity skip2; assumption|].
      intros y Hy. destruct (Hbnd y Hy) as [Hy'|Hy']; [apply Hbnd12, Hy' | right; exact Hy'].
    + exists skip2, path2. split; [reflexivity|].
      split; [transitivity skip1; assumption | exact Hbnd12].
Qed.

Lemma MatchTypes_loop_spec tags fuel : forall skip params,
  remaining tags skip < fuel ->
  exists r trace,
    MatchTypes_loop fuel tags skip params = Done (r, trace)
    /\ head trace = Some skip
    /\ length trace <= S (remaining tags skip)
    /\ growing trace
    /\ Forall (fun s => forall x, x ∈ s -> x ∈ skip \/ x < visible_count tags) trace.
Proof.
  induction fuel as [|fuel IH]; intros skip params Hfuel; [lia|].
  cbn [MatchTypes_loop].
  destruct (ForEachTagEx (matchTagToClassificator GetRoot) tags skip [])
    as [[found skip1] path1] eqn:Hroot.
  destruct (ForEachTagEx_spec _ _ _ (matchTagToClassificator_found GetRoot)
              _ _ _ _ _ _ I Hroot) as (_ & Hsub1 & Hbnd1 & Htrue1).
  destruct found; cbn [negb].
  2:{ exists params, [skip]. split; [reflexivity|]. split; [reflexivity|].
      split; [simpl; lia|]. split; [exact I|].
      constructor; [|constructor]. intros x Hx. left; exact Hx. }
  destruct (Htrue1 eq_refl) as (Hne1 & x & Hx1 & Hx2 & Hx3).
  assert (Hlt := remaining_lt tags _ _ _ Hsub1 Hx1 Hx2 Hx3).
  destruct path1 as [|e1 path1]; [contradiction|].
  destruct (extendPath_spec tags (S (length tags)) skip1 (e1 :: path1) Hne1)
    as (skip2 & path2 & Hext & Hsub2 & Hbnd2).
  { pose proof (remaining_le tags skip1). lia. }
  rewrite Hext.
  assert (Hle := remaining_mono tags _ _ Hsub2).
  set (params' := if IsDrawableAny (assignType path2)
                  then AddType (assignType path2) params else params).
  destruct (IH skip2 params') as (r & trace & Hrun & Hhd & Hlen & Hgrow & Hall); [lia|].
  rewrite Hrun. exists r, (skip :: trace).
  split; [reflexivity|]. split; [reflexivity|].
  split; [simpl; lia|].
  assert (Hstrict : skip ⊂ skip2).
  { split; [transitivity skip1; assumption|].
    intros Hc. apply Hx1, Hc, Hsub2, Hx2. }
  split.
  - destruct trace as [|s' rest]; [exact I|].
    injection Hhd as ->. split; [exact Hstrict | exact Hgrow].
  - constructor; [intros y Hy; left; exact Hy|].
    eapply Forall_impl; [exact Hall|].
    intros s Hs y Hy. destruct (Hs y Hy) as [Hy'|Hy']; [|right; exact Hy'].
    destruct (Hbnd2 y Hy') as [Hy''|Hy'']; [apply Hbnd1, Hy'' | right; exact Hy''].
Qed.
End MatchTypes_facts.





Section MatchTypes_claims.
Context `{Externals}.

Lemma MatchTypes_loop_more_fuel tags fuel : forall skip params x,
  MatchTypes_loop fuel tags skip params = Done x ->
  MatchTypes_loop (S fuel) tags skip params = Done x.
Proof.
  induction fuel as [|fuel IH]; intros skip params x Hrun; [discriminate|].
  cbn [MatchTypes_loop] in Hrun. cbn [MatchTypes_loop].
  destruct (ForEachTagEx (matchTagToClassificator GetRoot) tags skip [])
    as [[found skip1] path1].
  destruct (negb found); [exact Hrun|].
  destruct path1 as [|e1 path1]; [discriminate|].
  destruct (extendPath (S (length tags)) tags skip1 (e1 :: path1))
    as [[skip2 path2]| |]; try discriminate.
  destruct (MatchTypes_loop fuel tags skip2 _) as [[r trace]| |] eqn:Hrec;
    try discriminate.
  apply IH in Hrec. cbn [MatchTypes_loop] in Hrec. rewrite Hrec. exact Hrun.
Qed.

Lemma MatchTypes_loop_fuel_irrelevant tags skip params x fuel fuel' :
  fuel <= fuel' ->
  MatchTypes_loop fuel tags skip params = Done x ->
  MatchTypes_loop fuel' tags skip params = Done x.
Proof.
  induction 1 as [|fuel' _ IH]; intros Hrun; [exact Hrun|].
  apply MatchTypes_loop_more_fuel, IH, Hrun.
Qed.


End MatchTypes_claims.

(** ** [IgnoreTag] and what the iterations present *)

Lemma existsb_eqb_In (v : string) (l : list string) :
  existsb (String.eqb v) l = true <-> In v l.
Proof.
  rewrite existsb_exists. split.
  - intros (x & Hx & Heq). apply String.eqb_eq in Heq. subst. exact Hx.
  - intros Hin. exists v. split; [exact Hin | apply String.eqb_refl].
Qed.

Lemma IgnoreTag_iff k v :
  IgnoreTag k v = true <->
  k = "" \/ In k ["description"; "cycleway"; "proposed"; "construction"]
  \/ (In v ["no"; "false"; "-1"] /\ k <> "layer" /\ k <> "oneway").
Proof.
  unfold IgnoreTag.
  destruct k as [|c k']; [simpl; split; [left; reflexivity | reflexivity]|].
  cbn [Str.empty]. set (k := String c k').
  assert (Hk : k <> "") by discriminate.
  unfold processedKeys. cbn [find_processed].
  destruct (String.eqb_spec k "description") as [->|H1];
    [split; [intros _; right; left; simpl; tauto | reflexivity]|].
  destruct (String.eqb_spec k "cycleway") as [->|H2];
    [split; [intros _; right; left; simpl; tauto | reflexivity]|].
  destruct (String.eqb_spec k "proposed") as [->|H3];
    [split; [intros _; right; left; simpl; tauto | reflexivity]|].
  destruct (String.eqb_spec k "construction") as [->|H4];
    [split; [intros _; right; left; simpl; tauto | reflexivity]|].
  destruct (String.eqb_spec k "layer") as [->|H5].
  { split; [discriminate|].
    intros [Hc|[Hc|(_ & Hc & _)]]; [discriminate | | contradiction].
    simpl in Hc. repeat destruct Hc as [Hc|Hc]; try discriminate; contradiction. }
  destruct (String.eqb_spec k "oneway") as [->|H6].
  { split; [discriminate|].
    intros [Hc|[Hc|(_ & _ & Hc)]]; [discriminate | | contradiction].
    simpl in Hc. repeat destruct Hc as [Hc|Hc]; try discriminate; contradiction. }
  unfold negativeValues. rewrite existsb_eqb_In. split.
  - intros Hin. right; right. auto.
  - intros [Hc|[Hc|(Hin & _)]]; [contradiction | | exact Hin].
    simpl in Hc. repeat destruct Hc as [Hc|Hc]; try (symmetry in Hc; contradiction).
    contradiction.
Qed.

Lemma ForEachTag_loop_visible {R : Type} `{TResult R} {St : Type}
  (toDo : @ToDo R St) tags : forall res st,
    outcome_of (ForEachTag_loop toDo res tags st)
    = outcome_of (ForEachTag_loop toDo res (List.filter visible tags) st).
  Proof.
    induction tags as [|e rest IH]; intros res st; [reflexivity|].
    cbn [List.filter]. unfold visible at 1.
    cbn [ForEachTag_loop].
    destruct (IgnoreTag (key e) (value e)) eqn:Hig; cbn [negb].
    - specialize (IH res st).
      destruct (ForEachTag_loop toDo res rest st) as [[r0 t0] s0].
      exact IH.
    - cbn [ForEachTag_loop]. rewrite Hig.
      destruct (toDo (key e) (value e) st) as [[res1 [k' v']] st1].
      destruct (to_bool res1); [reflexivity|].
      specialize (IH res1 st1).
      destruct (ForEachTag_loop toDo res1 rest st1) as [[r0 t0] s0].
      destruct (ForEachTag_loop toDo res1 (List.filter visible rest) st1) as [[r1 t1] s1].
      exact IH.
  Qed.

Lemma ForEachTagEx_visible {R : Type} `{TResult R} {St : Type}
  (toDo : string -> string -> St -> R * St) tags skip st :
    ForEachTagEx toDo tags skip st = ForEachTagEx toDo (List.filter visible tags) skip st.
  Proof.
    unfold ForEachTagEx, ForEachTag.
    pose proof (ForEachTag_loop_visible (const_ToDo (ForEachTagEx_lambda toDo)) tags
                  TResult_default (0, skip, st)) as Hv.
    destruct (ForEachTag_loop (const_ToDo (ForEachTagEx_lambda toDo))
                TResult_default tags (0, skip, st)) as [[r0 t0] [[i0 k0] s0]].
    destruct (ForEachTag_loop (const_ToDo (ForEachTagEx_lambda toDo))
                TResult_default (List.filter visible tags) (0, skip, st))
      as [[r1 t1] [[i1 k1] s1]].
    unfold outcome_of in Hv. simpl in Hv. congruence.
  Qed.

Lemma scan_log_cons e l matched more :
  scan_log l matched more -> scan_log (e :: l) matched (no_match e :: more).
Proof.
  unfold scan_log. destruct matched.
  - intros (init & e' & rest & -> & ->). exists (e :: init), e', rest.
    split; reflexivity.
  - intros ->. reflexivity.
Qed.

Lemma scan_log_match e l : scan_log (e :: l) true [(key e, value e, true)].
Proof. exists [], e, l. split; reflexivity. Qed.

Lemma ForEachTag_loop_log {R : Type} `{TResult R} {St : Type} (toDo : @ToDo R St) tags :
  forall res st log0,
    to_bool res = false ->
    exists r tags' st' more,
      ForEachTag_loop (logged toDo) res tags (st, log0) = (r, tags', (st', log0 ++ more))
      /\ ForEachTag_loop toDo res tags st = (r, tags', st')
      /\ scan_log (List.filter visible tags) (to_bool r) more.
Proof.
  induction tags as [|e rest IH]; intros res st log0 Hres.
  - exists res, [], st, []. cbn. rewrite app_nil_r, Hres. repeat split; reflexivity.
  - cbn [ForEachTag_loop List.filter]. unfold visible at 1.
    destruct (IgnoreTag (key e) (value e)) eqn:Hig; cbn [negb].
    + destruct (IH res st log0 Hres) as (r & tags' & st' & more & -> & -> & Hlog).
      exists r, (e :: tags'), st', more. split; [reflexivity|]. split; [reflexivity | exact Hlog].
    + unfold logged at 1. cbn [fst snd].
      destruct (toDo (key e) (value e) st) as [[r1 [k' v']] st1].
      destruct (to_bool r1) eqn:Hr1.
      * exists r1, (mkTag k' v' :: rest), st1, [(key e, value e, true)].
        rewrite Hr1. split; [reflexivity|]. split; [reflexivity | apply scan_log_match].
      * destruct (IH r1 st1 (log0 ++ [(key e, value e, false)]) Hr1)
          as (r & tags' & st' & more & -> & -> & Hlog).
        exists r, (mkTag k' v' :: tags'), st', (no_match e :: more).
        rewrite <- app_assoc. split; [reflexivity|]. split; [reflexivity | apply scan_log_cons, Hlog].
Qed.

Lemma offered_ext tags : forall id skip skip',
  (forall x, id <= x -> (x ∈ skip <-> x ∈ skip')) ->
  offered id skip tags = offered id skip' tags.
Proof.
  induction tags as [|e rest IH]; intros id skip skip' Hext; [reflexivity|].
  cbn [offered]. destruct (visible e).
  - assert (Hid : bool_decide (id ∈ skip) = bool_decide (id ∈ skip')).
    { apply bool_decide_ext, Hext. lia. }
    rewrite Hid, (IH (S id) skip skip'); [reflexivity|].
    intros x Hx. apply Hext. lia.
  - apply IH, Hext.
Qed.

Lemma offered_insert tags id skip :
  offered (S id) ({[id]} ∪ skip) tags = offered (S id) skip tags.
Proof.
  apply offered_ext. intros x Hx. rewrite elem_of_union, elem_of_singleton.
  split; [intros [->|Hin]; [lia | exact Hin] | intros Hin; right; exact Hin].
Qed.

Lemma ForEachTagEx_loop_log {R : Type} `{TResult R} {St : Type}
  (toDo : string -> string -> St -> R * St) tags :
  forall res id skip st log0,
    to_bool res = false ->
    exists r tags' id' skip' st' more,
      ForEachTag_loop (const_ToDo (ForEachTagEx_lambda (logged_ex toDo))) res tags
        (id, skip, (st, log0))
      = (r, tags', (id', skip', (st', log0 ++ more)))
      /\ ForEachTag_loop (const_ToDo (ForEachTagEx_lambda toDo)) res tags (id, skip, st)
         = (r, tags', (id', skip', st'))
      /\ scan_log (offered id skip tags) (to_bool r) more.
Proof.
  induction tags as [|e rest IH]; intros res id skip st log0 Hres.
  - exists res, [], id, skip, st, []. cbn. rewrite app_nil_r, Hres.
    repeat split; reflexivity.
  - cbn [ForEachTag_loop offered]. unfold visible at 1.
    destruct (IgnoreTag (key e) (value e)) eqn:Hig; cbn [negb].
    + destruct (IH res id skip st log0 Hres)
        as (r & tags' & id' & skip' & st' & more & -> & -> & Hlog).
      exists r, (e :: tags'), id', skip', st', more.
      split; [reflexivity|]. split; [reflexivity | exact Hlog].
    + unfold const_ToDo at 1 3. unfold ForEachTagEx_lambda at 1 3.
      destruct (decide (id ∈ skip)) as [Hin|Hnin].
      * rewrite (bool_decide_eq_true_2 _ Hin). cbn [orb].
        rewrite default_false.
        destruct (IH TResult_default (S id) skip st log0 default_false)
          as (r & tags' & id' & skip' & st' & more & -> & -> & Hlog).
        exists r, (mkTag (key e) (value e) :: tags'), id', skip', st', more.
        split; [reflexivity|]. split; [reflexivity | exact Hlog].
      * rewrite (bool_decide_eq_false_2 _ Hnin). cbn [orb].
        destruct (Str.contains "name" (key e)).
        -- rewrite default_false.
           destruct (IH TResult_default (S id) ({[id]} ∪ skip) st log0 default_false)
             as (r & tags' & id' & skip' & st' & more & -> & -> & Hlog).
           exists r, (mkTag (key e) (value e) :: tags'), id', skip', st', more.
           rewrite offered_insert in Hlog.
           split; [reflexivity|]. split; [reflexivity | exact Hlog].
        -- unfold logged_ex at 1. cbn [fst snd].
           destruct (toDo (key e) (value e) st) as [r1 st1].
           cbn [fst snd].
           destruct (to_bool r1) eqn:Hr1; cbn [fst snd]; rewrite ?Hr1.
           ++ exists r1, (mkTag (key e) (value e) :: rest), (S id), ({[id]} ∪ skip), st1,
                [(key e, value e, true)].
              rewrite Hr1. split; [reflexivity|]. split; [reflexivity | apply scan_log_match].
           ++ destruct (IH r1 (S id) skip st1 (log0 ++ [(key e, value e, false)]) Hr1)
                as (r & tags' & id' & skip' & st' & more & -> & -> & Hlog).
              exists r, (mkTag (key e) (value e) :: tags'), id', skip', st',
                (no_match e :: more).
              rewrite <- app_assoc.
              split; [reflexivity|]. split; [reflexivity | apply scan_log_cons, Hlog].
Qed.

(** C6 (amended). [IgnoreTag] answers true exactly when the key is
    empty, or is one of description, cycleway, proposed, construction,
    or the value is one of no, false, -1 and the key is neither layer
    nor oneway; tags with key layer or oneway are let through whatever
    their value.  [ForEachTag] hands its functor exactly the tags
    [IgnoreTag] lets through, in tag order, up to the first match, and
    runs as on the list of those tags.  The walker's scan
    ([ForEachTagEx]) hands its functor, of those tags, exactly the ones
    whose number is not in the skip set and whose key does not contain
    ["name"], in tag order, up to the first match. *)
Theorem IgnoreTag_exactly :
  (forall k v,
      IgnoreTag k v = true <->
      k = "" \/ In k ["description"; "cycleway"; "proposed"; "construction"]
      \/ (In v ["no"; "false"; "-1"] /\ k <> "layer" /\ k <> "oneway"))
  /\ (forall v, IgnoreTag "layer" v = false /\ IgnoreTag "oneway" v = false)
  /\ (forall R (TR : TResult R) St (toDo : @ToDo R St) tags st,
         exists res tags' st' log,
           ForEachTag (logged toDo) tags (st, []) = (res, tags', (st', log))
           /\ ForEachTag toDo tags st = (res, tags', st')
           /\ scan_log (List.filter visible tags) (to_bool res) log)
  /\ (forall R (TR : TResult R) St (toDo : string -> string -> St -> R * St) tags skip st,
         exists res skip' st' log,
           ForEachTagEx (logged_ex toDo) tags skip (st, []) = (res, skip', (st', log))
           /\ ForEachTagEx toDo tags skip st = (res, skip', st')
           /\ scan_log (offered 0 skip tags) (to_bool res) log)
  /\ (forall R (TR : TResult R) St (toDo : @ToDo R St) tags st,
         outcome_of (ForEachTag toDo tags st)
         = outcome_of (ForEachTag toDo (List.filter visible tags) st))
  /\ (forall R (TR : TResult R) St (toDo : string -> string -> St -> R * St) tags skip st,
         ForEachTagEx toDo tags skip st
         = ForEachTagEx toDo (List.filter visible tags) skip st).
Proof.
  split; [exact IgnoreTag_iff|].
  split; [intros v; split; reflexivity|].
  split.
  { intros R TR St toDo tags st. unfold ForEachTag.
    destruct (ForEachTag_loop_log toDo tags TResult_default st [] default_false)
      as (r & tags' & st' & more & Hl & Hp & Hlog).
    exists r, tags', st', more. split; [exact Hl|]. split; [exact Hp | exact Hlog]. }
  split.
  { intros R TR St toDo tags skip st. unfold ForEachTagEx, ForEachTag.
    destruct (ForEachTagEx_loop_log toDo tags TResult_default 0 skip st [] default_false)
      as (r & tags' & id' & skip' & st' & more & Hl & Hp & Hlog).
    exists r, skip', st', more. rewrite Hl, Hp.
    split; [reflexivity|]. split; [reflexivity | exact Hlog]. }
  split.
  - intros R TR St toDo tags st. apply ForEachTag_loop_visible.
  - intros R TR St toDo tags skip st. apply ForEachTagEx_visible.
Qed.

(** ** Consumed tags *)

Lemma with_cleared_at_S n e tags :
  with_cleared_at (S n) (e :: tags) = e :: with_cleared_at n tags.
Proof. reflexivity. Qed.

Lemma with_cleared_at_app pre post :
  with_cleared_at (length pre) (pre ++ post) = pre ++ cleared :: post.
Proof.
  unfold with_cleared_at. rewrite take_app_length, drop_app_length. reflexivity.
Qed.

Lemma ForEachTag_loop_cleared {R : Type} `{TResult R} {St : Type}
  (toDo : @ToDo R St) pre post : forall res st,
  ForEachTag_loop toDo res (pre ++ cleared :: post) st
  = let '(r, tags', st') := ForEachTag_loop toDo res (pre ++ post) st in
    (r, with_cleared_at (length pre) tags', st').
Proof.
  induction pre as [|e pre IH]; intros res st.
  - cbn [app length ForEachTag_loop]. cbn.
    destruct (ForEachTag_loop toDo res post st) as [[r t] s]. reflexivity.
  - cbn [app length ForEachTag_loop].
    destruct (IgnoreTag (key e) (value e)).
    + rewrite IH.
      destruct (ForEachTag_loop toDo res (pre ++ post) st) as [[r t] s].
      reflexivity.
    + destruct (toDo (key e) (value e) st) as [[res1 [k' v']] st1].
      destruct (to_bool res1).
      * rewrite with_cleared_at_S, with_cleared_at_app. reflexivity.
      * rewrite IH.
        destruct (ForEachTag_loop toDo res1 (pre ++ post) st1) as [[r t] s].
        reflexivity.
Qed.

Lemma filter_visible_cleared pre post :
  List.filter visible (pre ++ cleared :: post) = List.filter visible (pre ++ post).
Proof. rewrite !List.filter_app. reflexivity. Qed.

Lemma ApplyRules_tag_cleared {St} (rules : list (TagProcessor.Rule St)) (st : St) :
  keys_nonempty rules = true -> TagProcessor.ApplyRules_tag rules cleared st = (cleared, st).
Proof.
  induction rules as [|rule rest IH]; intros Hk; [reflexivity|].
  simpl in Hk. apply andb_prop in Hk as [Hk Hrest].
  cbn [TagProcessor.ApplyRules_tag]. unfold Str.strcmp_eq. cbn [key cleared Str.c_str].
  destruct (TagProcessor.rkey rule) as [|c s]; [discriminate|].
  cbn. exact (IH Hrest).
Qed.

Lemma ApplyRules_app {St} (rules : list (TagProcessor.Rule St)) a : forall b st,
  TagProcessor.ApplyRules rules (a ++ b) st
  = let '(a', st1) := TagProcessor.ApplyRules rules a st in
    let '(b', st2) := TagProcessor.ApplyRules rules b st1 in
    (a' ++ b', st2).
Proof.
  induction a as [|e a IH]; intros b st.
  - cbn. destruct (TagProcessor.ApplyRules rules b st). reflexivity.
  - cbn [app TagProcessor.ApplyRules].
    destruct (TagProcessor.ApplyRules_tag rules e st) as [e' st1].
    rewrite IH.
    destruct (TagProcessor.ApplyRules rules a st1) as [a' st2].
    destruct (TagProcessor.ApplyRules rules b st2) as [b' st3]. reflexivity.
Qed.

Lemma ApplyRules_length {St} (rules : list (TagProcessor.Rule St)) tags : forall st,
  length (fst (TagProcessor.ApplyRules rules tags st)) = length tags.
Proof.
  induction tags as [|e rest IH]; intros st; [reflexivity|].
  cbn [TagProcessor.ApplyRules]. destruct (TagProcessor.ApplyRules_tag rules e st) as [e' st1].
  specialize (IH st1). destruct (TagProcessor.ApplyRules rules rest st1) as [rest' st2].
  simpl in *. congruence.
Qed.

Lemma ApplyRules_cleared {St} (rules : list (TagProcessor.Rule St)) pre post st :
  keys_nonempty rules = true ->
  TagProcessor.ApplyRules rules (pre ++ cleared :: post) st
  = let '(tags', st') := TagProcessor.ApplyRules rules (pre ++ post) st in
    (with_cleared_at (length pre) tags', st').
Proof.
  intros Hk. rewrite !ApplyRules_app.
  pose proof (ApplyRules_length rules pre st) as Hlen.
  destruct (TagProcessor.ApplyRules rules pre st) as [pre' st1]. simpl in Hlen.
  cbn [TagProcessor.ApplyRules]. rewrite (ApplyRules_tag_cleared rules st1 Hk).
  destruct (TagProcessor.ApplyRules rules post st1) as [post' st2].
  rewrite <- Hlen, with_cleared_at_app. reflexivity.
Qed.

(** The rule tables of [GetNameAndType] all have non-empty key patterns. *)
Lemma program_tables_keys_nonempty `{Externals} :
  keys_nonempty GetNameAndType.preprocess_rules = true
  /\ keys_nonempty GetNameAndType.base_rules = true
  /\ keys_nonempty GetNameAndType.highway_rules = true
  /\ keys_nonempty GetNameAndType.subway_rules = true
  /\ keys_nonempty GetNameAndType.railway_rules = true.
Proof. repeat split; reflexivity. Qed.

(** C4. A tag whose key and value were cleared stays cleared and takes
    part in nothing: [ForEachTag] and [ForEachTagEx] never hand it to
    their functor, and no rule of a table with non-empty key patterns (as
    all tables of the program are) matches it; each pass runs as on the
    element without that tag and leaves the tag cleared in its place. *)
Theorem consumption_is_permanent {St : Type} (rules : list (TagProcessor.Rule St))
  (Hkeys : keys_nonempty rules = true) :
  (forall pre post st,
      TagProcessor.ApplyRules rules (pre ++ cleared :: post) st
      = let '(tags', st') := TagProcessor.ApplyRules rules (pre ++ post) st in
        (with_cleared_at (length pre) tags', st'))
  /\ (forall st, TagProcessor.ApplyRules_tag rules cleared st = (cleared, st))
  /\ (forall R (TR : TResult R) S (toDo : @ToDo R S) pre post st,
         ForEachTag toDo (pre ++ cleared :: post) st
         = let '(r, tags', st') := ForEachTag toDo (pre ++ post) st in
           (r, with_cleared_at (length pre) tags', st'))
  /\ (forall R (TR : TResult R) S (toDo : string -> string -> S -> R * S) pre post skip st,
         ForEachTagEx toDo (pre ++ cleared :: post) skip st
         = ForEachTagEx toDo (pre ++ post) skip st)
  /\ (forall e, consumed e -> e = cleared).
Proof.
  split; [intros pre post st; apply ApplyRules_cleared, Hkeys|].
  split; [intros st; apply ApplyRules_tag_cleared, Hkeys|].
  split; [intros R TR S toDo pre post st; apply ForEachTag_loop_cleared|].
  split.
  - intros R TR S toDo pre post skip st.
    rewrite ForEachTagEx_visible, filter_visible_cleared, <- ForEachTagEx_visible.
    reflexivity.
  - intros [k v] [Hk Hv]. simpl in *. subst. reflexivity.
Qed.

(** ** The rule engine *)

Lemma IsNegative_iff v :
  TagProcessor.IsNegative v = true <-> In v ["no"; "none"; "false"].
Proof.
  unfold TagProcessor.IsNegative. rewrite existsb_exists. split.
  - intros (x & Hx & Heq). apply String.eqb_eq in Heq. subst. exact Hx.
  - intros Hin. exists v. split; [exact Hin | apply String.eqb_refl].
Qed.

(** When the call of a rule's action is reached. *)
Lemma fires_iff {St} (rule : TagProcessor.Rule St) (e : Tag) :
  TagProcessor.fires rule e = true <->
  Str.c_str (key e) = TagProcessor.rkey rule
  /\ (Str.front (TagProcessor.rvalue rule) = "*"%char
      \/ (Str.front (TagProcessor.rvalue rule) = "!"%char
          /\ In (value e) ["no"; "none"; "false"])
      \/ (Str.front (TagProcessor.rvalue rule) = "~"%char
          /\ ~ In (value e) ["no"; "none"; "false"])
      \/ value e = TagProcessor.rvalue rule).
Proof.
  unfold TagProcessor.fires, Str.strcmp_eq, TagProcessor.take.
  rewrite andb_true_iff, orb_true_iff, String.eqb_eq, String.eqb_eq.
  apply and_iff_compat_l.
  destruct (Ascii.eqb_spec (Str.front (TagProcessor.rvalue rule)) "*"%char) as [Hs|Hs].
  { split; [intros _; left; exact Hs | intros _; left; reflexivity]. }
  destruct (Ascii.eqb_spec (Str.front (TagProcessor.rvalue rule)) "!"%char) as [Hb|Hb].
  { rewrite IsNegative_iff. split.
    - intros [Hn|Hv]; [right; left; split; assumption | right; right; right; exact Hv].
    - intros [Hc|[[_ Hn]|[[Hc _]|Hv]]];
        [contradiction | left; exact Hn | rewrite Hb in Hc; discriminate | right; exact Hv]. }
  destruct (Ascii.eqb_spec (Str.front (TagProcessor.rvalue rule)) "~"%char) as [Ht|Ht].
  { rewrite negb_true_iff, <- not_true_iff_false, IsNegative_iff. split.
    - intros [Hn|Hv]; [right; right; left; split; assumption | right; right; right; exact Hv].
    - intros [Hc|[[Hc _]|[[_ Hn]|Hv]]];
        [contradiction | contradiction | left; exact Hn | right; exact Hv]. }
  split.
  - intros [Hc|Hv]; [discriminate | right; right; right; exact Hv].
  - intros [Hc|[[Hc _]|[[Hc _]|Hv]]]; [contradiction.. | right; exact Hv].
Qed.

(** One step of the scan over the table, in terms of [fires]. *)
Lemma ApplyRules_tag_cons {St} (rule : TagProcessor.Rule St) rest e st :
  TagProcessor.ApplyRules_tag (rule :: rest) e st
  = if TagProcessor.fires rule e then
      let '(k', v', st') :=
        TagProcessor.call (TagProcessor.func rule) (key e) (value e) st in
      TagProcessor.ApplyRules_tag rest (mkTag k' v') st'
    else TagProcessor.ApplyRules_tag rest e st.
Proof.
  cbn [TagProcessor.ApplyRules_tag]. unfold TagProcessor.fires.
  destruct (Str.strcmp_eq (key e) (TagProcessor.rkey rule)); reflexivity.
Qed.

(** In a table of [void()] callbacks the whole table is scanned for the
    tag: the actions run are those of all the rules that fire, in table
    order. *)
Lemma ApplyRules_tag_Func0 {St} (rules : list (TagProcessor.Rule St)) e : forall st,
  all_Func0 rules = true ->
  TagProcessor.ApplyRules_tag rules e st
  = (e, fold_left (fun s r => act0 r s)
                  (List.filter (fun r => TagProcessor.fires r e) rules) st).
Proof.
  induction rules as [|rule rest IH]; intros st Hall; [reflexivity|].
  simpl in Hall. apply andb_prop in Hall as [Hf Hrest].
  rewrite ApplyRules_tag_cons. cbn [List.filter].
  destruct (TagProcessor.fires rule e).
  - cbn [fold_left]. rewrite <- (IH _ Hrest). unfold act0.
    destruct (TagProcessor.func rule) as [f|f]; [|discriminate].
    cbn [TagProcessor.call]. destruct e as [k v]. reflexivity.
  - apply IH, Hrest.
Qed.

(** ** The [layer] rule *)

Lemma clamp_range x : (-10 <= Num.clamp x (-10) 10 <= 10)%Z.
Proof. unfold Num.clamp. lia. Qed.

Lemma to_int8_small z : (-128 <= z <= 127)%Z -> Num.to_int8 z = z.
Proof.
  intros Hz. unfold Num.to_int8.
  rewrite Z.mod_small; lia.
Qed.

Lemma layer_action_unset k v params :
  layer params = 0%Z ->
  GetNameAndType.layer_action k v params = (k, v, set_layer (layer_of v) params).
Proof.
  intros H0. unfold GetNameAndType.layer_action. rewrite H0. cbn.
  destruct params; reflexivity.
Qed.

Lemma layer_action_set k v params :
  layer params <> 0%Z -> GetNameAndType.layer_action k v params = (k, v, params).
Proof.
  intros Hne. unfold GetNameAndType.layer_action.
  destruct (Z.eqb_spec (layer params) 0); [contradiction | reflexivity].
Qed.

Section Layer.
Context `{Externals}.

(** A [layer] tag meets one rule of the base table only, the last. *)
Lemma base_rules_layer_tag v params :
  TagProcessor.ApplyRules_tag GetNameAndType.base_rules (mkTag "layer" v) params
  = (mkTag "layer" v, snd (GetNameAndType.layer_action "layer" v params)).
Proof.
  cbn. unfold GetNameAndType.layer_action.
  destruct (Z.eqb (layer params) 0); reflexivity.
Qed.

Lemma base_rules_layer_tags vs : forall params,
  layer params <> 0%Z ->
  TagProcessor.ApplyRules GetNameAndType.base_rules (map (mkTag "layer") vs) params
  = (map (mkTag "layer") vs, params).
Proof.
  induction vs as [|v vs IH]; intros params Hne; [reflexivity|].
  cbn [map TagProcessor.ApplyRules]. rewrite base_rules_layer_tag.
  rewrite (layer_action_set _ _ _ Hne). cbn [snd]. rewrite (IH _ Hne). reflexivity.
Qed.

(** The [layer] rule for every value: the stored layer lies in
    [-10, 10] and is the clamp of the parsed value as narrowed to
    [int8_t]; when the parsed value lies in the range of [int8_t] it is
    the clamp of the parsed value itself (15 gives 10, -99 gives -10);
    the rule writes only while the stored layer is 0, so once a [layer]
    tag has set a non-zero value the later [layer] tags are ignored. *)
Theorem layer_clamped_first_wins (params : FeatureParams) (v : string)
  (Hunset : layer params = 0%Z) :
  let stored := layer (snd (GetNameAndType.layer_action "layer" v params)) in
  (-10 <= stored <= 10)%Z
  /\ stored = Num.clamp (Num.to_int8 (Num.atoi (Str.c_str v))) (-10) 10
  /\ ((-128 <= Num.atoi (Str.c_str v) <= 127)%Z ->
      stored = Z.max (-10) (Z.min (Num.atoi (Str.c_str v)) 10))
  /\ layer_of "15" = 10%Z /\ layer_of "-99" = (-10)%Z
  /\ (forall k' v' p, layer p <> 0%Z -> GetNameAndType.layer_action k' v' p = (k', v', p))
  /\ (stored <> 0%Z ->
      forall vs,
        TagProcessor.ApplyRules GetNameAndType.base_rules
          (map (mkTag "layer") (v :: vs)) params
        = (map (mkTag "layer") (v :: vs), set_layer stored params)).
Proof.
  cbv zeta. rewrite (layer_action_unset _ _ _ Hunset). cbn [snd].
  assert (Hl : layer (set_layer (layer_of v) params) = layer_of v) by reflexivity.
  rewrite Hl. unfold layer_of at 1 2.
  split; [apply clamp_range|]. split; [reflexivity|].
  split; [intros Hr; unfold layer_of; rewrite (to_int8_small _ Hr); reflexivity|].
  split; [reflexivity|]. split; [reflexivity|].
  split; [intros k' v' p; apply layer_action_set|].
  intros Hne vs. cbn [map TagProcessor.ApplyRules].
  rewrite base_rules_layer_tag, (layer_action_unset _ _ _ Hunset). cbn [snd].
  rewrite base_rules_layer_tags; [reflexivity|].
  exact Hne.
Qed.

(** ** The address post-fix *)

Lemma set_Types_same p : set_Types (m_Types p) p = p.
Proof. destruct p; reflexivity. Qed.

Lemma filter_absent (t : Z) (l : list Z) :
  ~ In t l -> List.filter (fun x => negb (Z.eqb x t)) l = l.
Proof.
  induction l as [|a l IH]; intros Hn; [reflexivity|].
  cbn [List.filter]. destruct (Z.eqb_spec a t) as [->|Hne].
  - exfalso. apply Hn. left; reflexivity.
  - cbn [negb]. rewrite IH; [reflexivity|]. intros Hc. apply Hn. right; exact Hc.
Qed.

Lemma existsb_Zeqb_In (t : Z) (l : list Z) : existsb (Z.eqb t) l = true <-> In t l.
Proof.
  rewrite existsb_exists. split.
  - intros (x & Hx & Heq). apply Z.eqb_eq in Heq. subst. exact Hx.
  - intros Hin. exists t. split; [exact Hin | apply Z.eqb_refl].
Qed.

(** C8. With a house name or number recorded: if the record holds the
    entrance code, the post-fix removes it, empties the name table and
    adds the address code, the other fields staying as they were; if
    the entrance code is absent, the record is left unchanged. *)
Theorem address_postfix_spec (params : FeatureParams)
  (Hhouse : house params <> "") :
  let entrance := CachedTypes.Get CachedTypes.ENTRANCE in
  let address := CachedTypes.Get CachedTypes.ADDRESS in
  let params' := GetNameAndType.address_postfix params in
  (In entrance (m_Types params) ->
     m_Types params'
     = List.filter (fun x => negb (Z.eqb x entrance)) (m_Types params) ++ [address]
     /\ ~ In entrance (List.filter (fun x => negb (Z.eqb x entrance)) (m_Types params))
     /\ In address (m_Types params')
     /\ name params' = ∅
     /\ house params' = house params /\ flats params' = flats params
     /\ rank params' = rank params /\ ref params' = ref params
     /\ layer params' = layer params
     /\ m_reverseGeometry params' = m_reverseGeometry params)
  /\ (~ In entrance (m_Types params) -> params' = params).
Proof.
  cbv zeta. unfold GetNameAndType.address_postfix, house_IsEmpty.
  destruct (house params) as [|c s] eqn:Hh; [contradiction|].
  cbn [Str.empty negb]. unfold PopExactType.
  split.
  - intros Hin. apply existsb_Zeqb_In in Hin. rewrite Hin.
    split; [reflexivity|].
    split.
    { intros Hc. apply List.filter_In in Hc as [_ Hc].
      rewrite Z.eqb_refl in Hc. discriminate. }
    split; [cbn; apply in_or_app; right; left; reflexivity|].
    cbn. rewrite Hh. repeat split; reflexivity.
  - intros Hn.
    destruct (existsb (Z.eqb (CachedTypes.Get CachedTypes.ENTRANCE)) (m_Types params)) eqn:Hex.
    + apply existsb_Zeqb_In in Hex. contradiction.
    + rewrite (filter_absent _ _ Hn). apply set_Types_same.
Qed.
End Layer.

(** ** The click check *)

Section CheckClick_facts.
Variable PointD : Type.
Variable point_eq : PointD -> PointD -> bool.
Variable Distance : Type.
Variable DistanceOnEarth : PointD -> PointD -> Distance.
Variable below_tolerance : Distance -> bool.

(** With a non-empty list the answer is [Add], whatever the points. *)
Lemma CheckClick_nonempty click last p ps :
  point_eq click last = false ->
  OpenLR.CheckClick PointD point_eq Distance DistanceOnEarth below_tolerance
    click last (p :: ps) = OpenLR.Add.
Proof. intros Hne. unfold OpenLR.CheckClick. rewrite Hne. reflexivity. Qed.
End CheckClick_facts.

(** ** The name extractor *)

Lemma GetLangByKey_lang k saved :
  ExtractNames.GetLangByKey k saved
  = match lang_of_key k with
    | None => (false, "", saved)
    | Some l => (negb (bool_decide (l ∈ saved)), l, {[l]} ∪ saved)
    end.
Proof.
  unfold ExtractNames.GetLangByKey, lang_of_key, ExtractNames.insert_second.
  destruct (SimpleTokenizer.tokens k) as [|tok more]; [reflexivity|].
  destruct (String.eqb tok "int_name"); [reflexivity|].
  destruct (String.eqb tok "name"); reflexivity.
Qed.

(** ** The post-match rounds *)

Section Rounds.
Context `{Externals}.
Import GetNameAndType.

Lemma postmatch_body_spec i t s :
  let s' := postmatch_body i t s in
  highwayDone s' = highwayDone s || runs_highway t s
  /\ subwayDone s' = subwayDone s || runs_subway t s
  /\ railwayDone s' = railwayDone s || runs_railway t s
  /\ fired s'
     = (if runs_railway t s then [(i, RailwayRound)] else [])
       ++ (if runs_subway t s then [(i, SubwayRound)] else [])
       ++ (if runs_highway t s then [(i, HighwayRound)] else [])
       ++ fired s.
Proof.
  unfold postmatch_body, runs_railway, runs_subway, runs_highway.
  destruct s as [hd sd rd tags params log]. cbn [highwayDone subwayDone railwayDone
    post_tags post_params fired].
  destruct hd, sd, rd, (CachedTypes.IsHighway t), (CachedTypes.IsRwSubway t),
    (CachedTypes.IsRwStation t); cbn [negb andb orb];
    repeat match goal with
           | |- context [TagProcessor.ApplyRules ?r ?a ?b] =>
               destruct (TagProcessor.ApplyRules r a b)
           end;
    cbn; repeat split; reflexivity.
Qed.
End Rounds.

Section Rounds_inv.
Context `{Externals}.
Import GetNameAndType.

Lemma fired_for_app r a b : fired_for r (a ++ b) = fired_for r a ++ fired_for r b.
Proof. unfold fired_for. rewrite List.filter_app, map_app. reflexivity. Qed.

(** The body adds the index [i] to the log of a round exactly when it
    runs that round, and then sets its flag. *)
Lemma fired_for_body r i t s :
  fired_for r (fired (postmatch_body i t s))
  = (if runs r t s then [i] else []) ++ fired_for r (fired s).
Proof.
  destruct (postmatch_body_spec i t s) as (_ & _ & _ & ->).
  rewrite !fired_for_app.
  destruct r; cbn [runs];
    destruct (runs_highway t s), (runs_subway t s), (runs_railway t s); reflexivity.
Qed.

Lemma done_flag_body r i t s :
  done_flag r (postmatch_body i t s) = done_flag r s || runs r t s.
Proof.
  destruct (postmatch_body_spec i t s) as (Eh & Es & Er & _).
  destruct r; assumption.
Qed.

Lemma runs_true r t s :
  runs r t s = true -> done_flag r s = false /\ in_category r t = true.
Proof.
  destruct r; cbn [runs done_flag in_category];
    unfold runs_highway, runs_subway, runs_railway; intros Hr.
  - apply andb_prop in Hr as [Hd Hc]. apply negb_true_iff in Hd. auto.
  - apply andb_prop in Hr as [Hd Hc]. apply negb_true_iff in Hd. auto.
  - apply andb_prop in Hr as [Hr Hc]. apply andb_prop in Hr as [_ Hd].
    apply negb_true_iff in Hd. auto.
Qed.

(** The generic round runs only while the subway round has not run,
    the current code included. *)
Lemma runs_railway_true t s :
  runs_railway t s = true -> subwayDone s = false /\ runs_subway t s = false.
Proof.
  unfold runs_railway. intros Hr.
  apply andb_prop in Hr as [Hr _]. apply andb_prop in Hr as [Hr _].
  apply negb_true_iff, orb_false_elim in Hr. exact Hr.
Qed.

Lemma rounds_inv_step done t s :
  rounds_inv done s -> rounds_inv (done ++ [t]) (postmatch_body (length done) t s).
Proof.
  intros [Hflag Honce Hord Hcode]. split.
  - intros r Hd. rewrite done_flag_body in Hd. apply orb_false_elim in Hd as [Hd Hr].
    rewrite fired_for_body, Hr. exact (Hflag r Hd).
  - intros r. rewrite fired_for_body. destruct (runs r t s) eqn:Hr.
    + destruct (runs_true r t s Hr) as [Hd _]. rewrite (Hflag r Hd). simpl. lia.
    + exact (Honce r).
  - intros i j. rewrite !fired_for_body. cbn [runs]. intros Hi Hj.
    destruct (runs_railway t s) eqn:Hr.
    + (* the generic round runs now: the subway round has not run *)
      destruct (runs_railway_true t s Hr) as [Hd Hs].
      rewrite Hs, (Hflag SubwayRound Hd) in Hi. contradiction.
    + cbn [app] in Hj.
      assert (Hlt : j < length done).
      { destruct (Hcode RailwayRound j Hj) as (t' & Ht' & _).
        apply lookup_lt_Some in Ht'. exact Ht'. }
      destruct (runs_subway t s) eqn:Hs; [|exact (Hord i j Hi Hj)].
      destruct (runs_true SubwayRound t s Hs) as [Hd _].
      rewrite (Hflag SubwayRound Hd) in Hi.
      destruct Hi as [<-|[]]. exact Hlt.
  - intros r i. rewrite fired_for_body. intros Hi.
    apply in_app_or in Hi as [Hi|Hi].
    + destruct (runs r t s) eqn:Hr; [|contradiction].
      destruct Hi as [<-|[]]. exists t. split.
      * apply list_lookup_middle. reflexivity.
      * exact (proj2 (runs_true r t s Hr)).
    + destruct (Hcode r i Hi) as (t' & Ht' & Hc). exists t'. split; [|exact Hc].
      apply lookup_app_l_Some. exact Ht'.
Qed.

Lemma rounds_inv_loop rest : forall done s,
  rounds_inv done s ->
  rounds_inv (done ++ rest) (postmatch_loop (length done) rest s).
Proof.
  induction rest as [|t rest IH]; intros done s Hinv.
  - rewrite app_nil_r. exact Hinv.
  - cbn [postmatch_loop].
    replace (done ++ t :: rest) with ((done ++ [t]) ++ rest)
      by (rewrite <- app_assoc; reflexivity).
    replace (S (length done)) with (length (done ++ [t]))
      by (rewrite length_app; simpl; lia).
    apply IH, rounds_inv_step, Hinv.
Qed.

Lemma rounds_inv_init tags params :
  rounds_inv [] (mkPost false false false tags params []).
Proof.
  split; cbn [fired].
  - intros r _. reflexivity.
  - intros r. simpl. lia.
  - intros i j [].
  - intros r i [].
Qed.

(** C3 (amended). Whatever the order of the codes, each of the three
    rounds runs at most once, and only for a code of its category; and
    when the subway round runs for the code at position [i], the
    generic railway-station round runs neither for that code nor for a
    later one: if it ran at all, it ran for an earlier code. *)
Theorem postmatch_rounds_gated (vTypes : list Z) (tags : list Tag)
  (params : FeatureParams) :
  let log := fired (postmatch_on vTypes tags params) in
  length (fired_for HighwayRound log) <= 1
  /\ length (fired_for SubwayRound log) <= 1
  /\ length (fired_for RailwayRound log) <= 1
  /\ (forall i j, In i (fired_for SubwayRound log) ->
                  In j (fired_for RailwayRound log) -> j < i)
  /\ (forall i, In i (fired_for HighwayRound log) ->
                exists t, vTypes !! i = Some t /\ CachedTypes.IsHighway t = true)
  /\ (forall i, In i (fired_for SubwayRound log) ->
                exists t, vTypes !! i = Some t /\ CachedTypes.IsRwSubway t = true)
  /\ (forall i, In i (fired_for RailwayRound log) ->
                exists t, vTypes !! i = Some t /\ CachedTypes.IsRwStation t = true).
Proof.
  cbv zeta. unfold postmatch_on.
  destruct (rounds_inv_loop vTypes [] _ (rounds_inv_init tags params))
    as [_ Honce Hord Hcode].
  cbn [app length] in *.
  split; [exact (Honce HighwayRound)|].
  split; [exact (Honce SubwayRound)|].
  split; [exact (Honce RailwayRound)|].
  split; [exact Hord|].
  split; [exact (Hcode HighwayRound)|].
  split; [exact (Hcode SubwayRound) | exact (Hcode RailwayRound)].
Qed.
End Rounds_inv.

(** * Further properties of the code *)

(** ** Preprocessing, base rules and the tags of the rounds *)

(** A table of [void()] callbacks leaves every tag as it is. *)
Lemma ApplyRules_Func0_tags {St} (rules : list (TagProcessor.Rule St)) tags : forall st,
  all_Func0 rules = true -> fst (TagProcessor.ApplyRules rules tags st) = tags.
Proof.
  induction tags as [|e rest IH]; intros st Hall; [reflexivity|].
  cbn [TagProcessor.ApplyRules]. rewrite (ApplyRules_tag_Func0 rules e st Hall).
  specialize (IH (fold_left (fun s r => act0 r s)
                    (List.filter (fun r => TagProcessor.fires r e) rules) st) Hall).
  destruct (TagProcessor.ApplyRules rules rest _) as [rest' st2]. cbn in *.
  congruence.
Qed.

Lemma preprocess_tag_state e (s : GetNameAndType.PreState) :
  snd (TagProcessor.ApplyRules_tag GetNameAndType.preprocess_rules e s)
  = GetNameAndType.mkPre
      (GetNameAndType.hasLayer s || Str.strcmp_eq (key e) "layer")
      (match bridge_or_tunnel e with
       | Some l => Some l
       | None => GetNameAndType.layer_lit s
       end).
Proof.
  rewrite (ApplyRules_tag_Func0 GetNameAndType.preprocess_rules e s eq_refl). cbn [snd].
  unfold GetNameAndType.preprocess_rules, bridge_or_tunnel, TagProcessor.fires,
    TagProcessor.take, Str.strcmp_eq.
  cbn [List.filter TagProcessor.rkey TagProcessor.rvalue Str.front].
  destruct s as [h l].
  destruct (String.eqb_spec (Str.c_str (key e)) "bridge") as [Hb|Hb].
  { rewrite Hb. cbn. destruct (String.eqb (value e) "yes"); cbn;
      rewrite ?orb_false_r; reflexivity. }
  destruct (String.eqb_spec (Str.c_str (key e)) "tunnel") as [Ht|Ht].
  { rewrite Ht. cbn. destruct (String.eqb (value e) "yes"); cbn;
      rewrite ?orb_false_r; reflexivity. }
  destruct (String.eqb_spec (Str.c_str (key e)) "layer") as [Hl|Hl].
  { cbn. rewrite orb_true_r. reflexivity. }
  cbn. rewrite orb_false_r. reflexivity.
Qed.

Lemma preprocess_state tags : forall s,
  snd (TagProcessor.ApplyRules GetNameAndType.preprocess_rules tags s)
  = GetNameAndType.mkPre
      (GetNameAndType.hasLayer s || has_layer_tag tags)
      (match synthesized_layer tags with
       | Some l => Some l
       | None => GetNameAndType.layer_lit s
       end).
Proof.
  induction tags as [|e rest IH]; intros s.
  - cbn. rewrite orb_false_r. destruct s; reflexivity.
  - cbn [TagProcessor.ApplyRules].
    pose proof (preprocess_tag_state e s) as He.
    destruct (TagProcessor.ApplyRules_tag GetNameAndType.preprocess_rules e s) as [e' s1].
    cbn [snd] in He. specialize (IH s1).
    destruct (TagProcessor.ApplyRules GetNameAndType.preprocess_rules rest s1) as [r' s2].
    cbn [snd] in *. rewrite IH, He. cbn [GetNameAndType.hasLayer GetNameAndType.layer_lit
      has_layer_tag existsb synthesized_layer].
    fold (has_layer_tag rest). rewrite orb_assoc.
    destruct (synthesized_layer rest); reflexivity.
Qed.

(** X1. The preprocessing step keeps every tag of the element as it is
    and appends at most one tag: [layer=1] or [layer=-1], exactly when no
    tag has the key [layer] and some tag is [bridge=yes] or [tunnel=yes];
    the last such tag of the element decides which. *)
Theorem preprocess_synthesizes_layer (p : OsmElement) :
  m_tags (GetNameAndType.preprocess p)
  = m_tags p
    ++ (if has_layer_tag (m_tags p) then []
        else match synthesized_layer (m_tags p) with
             | Some l => [mkTag "layer" l]
             | None => []
             end).
Proof.
  unfold GetNameAndType.preprocess.
  pose proof (ApplyRules_Func0_tags GetNameAndType.preprocess_rules (m_tags p)
                (GetNameAndType.mkPre false None) eq_refl) as Ht.
  pose proof (preprocess_state (m_tags p) (GetNameAndType.mkPre false None)) as Hs.
  destruct (TagProcessor.ApplyRules GetNameAndType.preprocess_rules (m_tags p) _)
    as [tags s].
  cbn [fst snd] in *. subst tags. rewrite Hs.
  cbn [GetNameAndType.hasLayer GetNameAndType.layer_lit orb].
  destruct (has_layer_tag (m_tags p)).
  - destruct (synthesized_layer (m_tags p)); cbn; rewrite app_nil_r; reflexivity.
  - destruct (synthesized_layer (m_tags p)); cbn; [reflexivity|].
    rewrite app_nil_r; reflexivity.
Qed.

Section Base_rules.
Context `{Externals}.

Lemma base_rules_tag e params :
  fst (TagProcessor.ApplyRules_tag GetNameAndType.base_rules e params) = base_tag e.
Proof.
  destruct e as [k v]. unfold base_tag, stored_keys. cbn [key value existsb].
  unfold GetNameAndType.base_rules.
  rewrite !ApplyRules_tag_cons.
  unfold TagProcessor.fires, TagProcessor.take, Str.strcmp_eq.
  cbn [TagProcessor.rkey TagProcessor.rvalue TagProcessor.func Str.front key value
         TagProcessor.call].
  destruct (String.eqb_spec (Str.c_str k) "atm") as [E|_];
    [rewrite E; cbn; destruct (String.eqb v "yes"); reflexivity|].
  destruct (String.eqb_spec (Str.c_str k) "restaurant") as [E|_];
    [rewrite E; cbn; destruct (String.eqb v "yes"); reflexivity|].
  destruct (String.eqb_spec (Str.c_str k) "hotel") as [E|_];
    [rewrite E; cbn; destruct (String.eqb v "yes"); reflexivity|].
  destruct (String.eqb_spec (Str.c_str k) "addr:housename") as [E|_];
    [rewrite E; reflexivity|].
  destruct (String.eqb_spec (Str.c_str k) "addr:street") as [E|_];
    [rewrite E; reflexivity|].
  destruct (String.eqb_spec (Str.c_str k) "addr:flats") as [E|_];
    [rewrite E; reflexivity|].
  destruct (String.eqb_spec (Str.c_str k) "addr:housenumber") as [E|_];
    [rewrite E; cbn; destruct (AddHouseNumber v params); reflexivity|].
  destruct (String.eqb_spec (Str.c_str k) "population") as [E|_];
    [rewrite E; reflexivity|].
  destruct (String.eqb_spec (Str.c_str k) "ref") as [E|_];
    [rewrite E; reflexivity|].
  destruct (String.eqb_spec (Str.c_str k) "layer") as [E|_]; [|reflexivity].
  cbn. unfold GetNameAndType.layer_action.
  destruct (Z.eqb (layer params) 0); reflexivity.
Qed.

Lemma base_rules_tags tags : forall params,
  fst (TagProcessor.ApplyRules GetNameAndType.base_rules tags params) = map base_tag tags.
Proof.
  induction tags as [|e rest IH]; intros params; [reflexivity|].
  cbn [TagProcessor.ApplyRules map].
  pose proof (base_rules_tag e params) as He.
  destruct (TagProcessor.ApplyRules_tag GetNameAndType.base_rules e params) as [e' p1].
  specialize (IH p1).
  destruct (TagProcessor.ApplyRules GetNameAndType.base_rules rest p1) as [r' p2].
  cbn [fst] in *. congruence.
Qed.
End Base_rules.

Lemma base_tag_stable e : base_tag (base_tag e) = base_tag e.
Proof.
  destruct e as [k v]. unfold base_tag at 2 3. unfold stored_keys.
  cbn [key value existsb].
  destruct ((String.eqb (Str.c_str k) "atm" || String.eqb (Str.c_str k) "restaurant")
            && String.eqb v "yes") eqn:E1; [reflexivity|].
  destruct (String.eqb (Str.c_str k) "hotel" && String.eqb v "yes") eqn:E2; [reflexivity|].
  destruct (String.eqb (Str.c_str k) "addr:housename"
            || (String.eqb (Str.c_str k) "addr:street"
                || (String.eqb (Str.c_str k) "addr:flats"
                    || (String.eqb (Str.c_str k) "addr:housenumber"
                        || (String.eqb (Str.c_str k) "population"
                            || (String.eqb (Str.c_str k) "ref" || false)))))) eqn:E3;
    [reflexivity|].
  unfold base_tag, stored_keys. cbn [key value existsb]. rewrite E1, E2, E3. reflexivity.
Qed.

Lemma base_tag_key_not_stored e : ~ In (Str.c_str (key (base_tag e))) stored_keys.
Proof.
  destruct e as [k v]. unfold base_tag, stored_keys. cbn [key value existsb].
  destruct ((String.eqb (Str.c_str k) "atm" || String.eqb (Str.c_str k) "restaurant")
            && String.eqb v "yes");
    [cbn; intros Hc; repeat destruct Hc as [Hc|Hc]; try discriminate; exact Hc|].
  destruct (String.eqb (Str.c_str k) "hotel" && String.eqb v "yes");
    [cbn; intros Hc; repeat destruct Hc as [Hc|Hc]; try discriminate; exact Hc|].
  destruct (String.eqb (Str.c_str k) "addr:housename"
            || (String.eqb (Str.c_str k) "addr:street"
                || (String.eqb (Str.c_str k) "addr:flats"
                    || (String.eqb (Str.c_str k) "addr:housenumber"
                        || (String.eqb (Str.c_str k) "population"
                            || (String.eqb (Str.c_str k) "ref" || false)))))) eqn:E3;
    [cbn; intros Hc; repeat destruct Hc as [Hc|Hc]; try discriminate; exact Hc|].
  cbn [key]. intros Hc.
  assert (Hex : existsb (String.eqb (Str.c_str k)) stored_keys = true).
  { apply existsb_exists. exists (Str.c_str k). split; [exact Hc | apply String.eqb_refl]. }
  unfold stored_keys in Hex. cbn [existsb] in Hex. rewrite E3 in Hex. discriminate.
Qed.

Section Base_rules_claims.
Context `{Externals}.

(** X2. The base rules rewrite each tag on its own, whatever the record
    holds: [atm=yes] and [restaurant=yes] become [amenity=<key>],
    [hotel=yes] becomes [tourism=hotel], the address, population and
    [ref] tags are cleared, every other tag (a [layer] tag too) stays. *)
Theorem base_rules_rewrite_tags (tags : list Tag) (params : FeatureParams) :
  fst (TagProcessor.ApplyRules GetNameAndType.base_rules tags params) = map base_tag tags.
Proof. apply base_rules_tags. Qed.

(** X3. After the base rules no tag of the element carries one of the
    keys whose value went into the record, and a second run of the table
    would change no tag. *)
Theorem base_rules_consume_stored_keys (tags : list Tag) (params params' : FeatureParams) :
  let tags' := fst (TagProcessor.ApplyRules GetNameAndType.base_rules tags params) in
  Forall (fun e => ~ In (Str.c_str (key e)) stored_keys) tags'
  /\ length tags' = length tags
  /\ fst (TagProcessor.ApplyRules GetNameAndType.base_rules tags' params') = tags'.
Proof.
  cbv zeta. rewrite !base_rules_tags. split; [|split].
  - apply Forall_forall. intros e He. apply list_elem_of_In in He.
    apply in_map_iff in He as (e0 & <- & _). apply base_tag_key_not_stored.
  - apply length_map.
  - rewrite map_map. apply map_ext. intros e. apply base_tag_stable.
Qed.
End Base_rules_claims.

Section Postmatch_tags.
Context `{Externals}.
Import GetNameAndType.

Lemma postmatch_body_tags i t s : post_tags (postmatch_body i t s) = post_tags s.
Proof.
  unfold postmatch_body. destruct s as [hd sd rd tags params log].
  cbn [highwayDone subwayDone railwayDone post_tags post_params fired].
  destruct hd, sd, rd, (CachedTypes.IsHighway t), (CachedTypes.IsRwSubway t),
    (CachedTypes.IsRwStation t); cbn [negb andb];
    repeat match goal with
           | |- context [TagProcessor.ApplyRules ?r ?tg ?p] =>
               let Hf := fresh "Hf" in
               pose proof (ApplyRules_Func0_tags r tg p eq_refl) as Hf;
               destruct (TagProcessor.ApplyRules r tg p);
               cbn [fst] in Hf; subst;
               cbn [highwayDone subwayDone railwayDone post_tags post_params fired
                      negb andb]
           end;
    reflexivity.
Qed.

Lemma postmatch_loop_tags vTypes : forall i s,
  post_tags (postmatch_loop i vTypes s) = post_tags s.
Proof.
  induction vTypes as [|t rest IH]; intros i s; [reflexivity|].
  cbn [postmatch_loop]. rewrite IH. apply postmatch_body_tags.
Qed.

(** X4. The post-match rounds read the tags and never write them: a
    table of [void()] callbacks returns the tags it was given, and so
    does the whole loop over the codes. *)
Theorem postmatch_keeps_tags (vTypes : list Z) (tags : list Tag) (params : FeatureParams) :
  post_tags (postmatch_on vTypes tags params) = tags
  /\ (forall St (rules : list (TagProcessor.Rule St)) st,
         all_Func0 rules = true ->
         fst (TagProcessor.ApplyRules rules tags st) = tags).
Proof.
  split.
  - unfold postmatch_on. rewrite postmatch_loop_tags. reflexivity.
  - intros St rules st Hall. apply ApplyRules_Func0_tags, Hall.
Qed.
End Postmatch_tags.

(** ** The name pass *)

Lemma union_singleton_absorb (l : string) (saved : gset string) :
  l ∈ saved -> {[l]} ∪ saved = saved.
Proof.
  intros Hin. apply set_eq. intros x. rewrite elem_of_union, elem_of_singleton. split.
  - intros [->|Hx]; assumption.
  - intros Hx. right; exact Hx.
Qed.

Section Names.
Context `{Externals}.

(** One call of the functor on a presented tag. *)
Lemma ExtractNames_call_tag e saved params :
  visible e = true ->
  ExtractNames.call (key e) (value e) (ExtractNames.mk saved params)
  = match name_lang_of_tag e with
    | Some l =>
        if decide (l ∈ saved) then (false, (key e, value e), ExtractNames.mk saved params)
        else (false, ("", ""),
              ExtractNames.mk ({[l]} ∪ saved)
                (AddName l (NFKC (Str.c_str (value e))) params))
    | None => (false, (key e, value e), ExtractNames.mk saved params)
    end.
Proof.
  intros Hvis. unfold name_lang_of_tag, ExtractNames.call. rewrite Hvis. cbn [andb].
  destruct (Str.empty (value e)); [reflexivity|]. cbn [negb].
  rewrite GetLangByKey_lang. cbn [ExtractNames.m_savedNames ExtractNames.m_params].
  destruct (lang_of_key (key e)) as [l|]; [|reflexivity].
  destruct (decide (l ∈ saved)) as [Hin|Hnin].
  - rewrite bool_decide_eq_true_2 by exact Hin. cbn [negb].
    rewrite (union_singleton_absorb l saved Hin). reflexivity.
  - rewrite bool_decide_eq_false_2 by exact Hnin. reflexivity.
Qed.

Lemma ExtractNames_loop tags : forall saved params,
  exists saved',
    ForEachTag_loop ExtractNames.call false tags (ExtractNames.mk saved params)
    = (false,
       imap (fun i e =>
               match name_lang_of_tag e with
               | Some l =>
                   if bool_decide (l ∈ saved) || has_name_lang l (firstn i tags)
                   then e else cleared
               | None => e
               end) tags,
       ExtractNames.mk saved'
         (fold_left (fun p le => AddName (fst le) (NFKC (Str.c_str (value (snd le)))) p)
                    (stored_names saved tags) params)).
Proof.
  induction tags as [|e rest IH]; intros saved params.
  - exists saved. reflexivity.
  - cbn [ForEachTag_loop imap stored_names].
    destruct (IgnoreTag (key e) (value e)) eqn:Hig.
    + assert (Hn : name_lang_of_tag e = None).
      { unfold name_lang_of_tag, visible. rewrite Hig. reflexivity. }
      destruct (IH saved params) as (saved' & ->).
      exists saved'. rewrite Hn. f_equal. f_equal. f_equal.
      apply imap_ext. intros i x _. unfold compose. cbn [firstn has_name_lang existsb].
      rewrite Hn. reflexivity.
    + assert (Hvis : visible e = true) by (unfold visible; rewrite Hig; reflexivity).
      rewrite (ExtractNames_call_tag e saved params Hvis).
      destruct (name_lang_of_tag e) as [l|] eqn:Hn.
      * destruct (decide (l ∈ saved)) as [Hin|Hnin].
        -- cbn [to_bool TResult_bool]. destruct (IH saved params) as (saved' & ->).
           exists saved'. rewrite (bool_decide_eq_true_2 _ Hin). cbn [orb].
           destruct e as [k v]. cbn [key value]. f_equal. f_equal. f_equal.
           apply imap_ext. intros i x _. unfold compose. cbn [firstn has_name_lang existsb].
           rewrite Hn. fold (has_name_lang).
           destruct (name_lang_of_tag x) as [lx|]; [|reflexivity].
           destruct (String.eqb_spec lx l) as [->|Hne].
           ++ rewrite (bool_decide_eq_true_2 _ Hin). reflexivity.
           ++ reflexivity.
        -- cbn [to_bool TResult_bool].
           destruct (IH ({[l]} ∪ saved) (AddName l (NFKC (Str.c_str (value e))) params))
             as (saved' & ->).
           exists saved'. rewrite (bool_decide_eq_false_2 _ Hnin). cbn [orb firstn].
           cbn [fold_left fst snd]. f_equal. f_equal. f_equal.
           apply imap_ext. intros i x _. unfold compose. cbn [firstn has_name_lang existsb].
           rewrite Hn. fold (has_name_lang).
           destruct (name_lang_of_tag x) as [lx|]; [|reflexivity].
           destruct (String.eqb_spec lx l) as [->|Hne].
           ++ rewrite bool_decide_eq_true_2
                by (apply elem_of_union; left; apply elem_of_singleton; reflexivity).
              rewrite (bool_decide_eq_false_2 _ Hnin). reflexivity.
           ++ cbn [orb].
              destruct (decide (lx ∈ saved)) as [Hx|Hx].
              ** rewrite (bool_decide_eq_true_2 _ Hx).
                 rewrite bool_decide_eq_true_2
                   by (apply elem_of_union; right; exact Hx).
                 reflexivity.
              ** rewrite (bool_decide_eq_false_2 _ Hx).
                 rewrite bool_decide_eq_false_2; [reflexivity|].
                 intros Hc. apply elem_of_union in Hc as [Hc|Hc]; [|contradiction].
                 apply elem_of_singleton in Hc. contradiction.
      * cbn [to_bool TResult_bool]. destruct (IH saved params) as (saved' & ->).
        exists saved'. destruct e as [k v]. cbn [key value]. f_equal. f_equal. f_equal.
        apply imap_ext. intros i x _. unfold compose. cbn [firstn has_name_lang existsb].
        rewrite Hn. reflexivity.
Qed.
End Names.

Lemma stored_names_fresh tags : forall saved,
  NoDup (map fst (stored_names saved tags))
  /\ Forall (fun le => (fst le ∉ saved) /\ In (snd le) tags
                       /\ name_lang_of_tag (snd le) = Some (fst le))
            (stored_names saved tags).
Proof.
  induction tags as [|e rest IH]; intros saved.
  - split; constructor.
  - cbn [stored_names]. destruct (name_lang_of_tag e) as [l|] eqn:Hn.
    + destruct (decide (l ∈ saved)) as [Hin|Hnin].
      * destruct (IH saved) as [Hnd Hall]. split; [exact Hnd|].
        eapply Forall_impl; [exact Hall|]. intros le (H1 & H2 & H3).
        split; [exact H1|]. split; [right; exact H2 | exact H3].
      * destruct (IH ({[l]} ∪ saved)) as [Hnd Hall]. split.
        -- cbn [map fst]. constructor; [|exact Hnd].
           intros Hc. apply list_elem_of_In, in_map_iff in Hc as (le & Hfst & Hle).
           apply list_elem_of_In in Hle.
           rewrite Forall_forall in Hall. destruct (Hall le Hle) as (Hfresh & _).
           apply Hfresh. rewrite Hfst. apply elem_of_union; left.
           apply elem_of_singleton. reflexivity.
        -- constructor.
           ++ cbn [fst snd]. split; [exact Hnin|]. split; [left; reflexivity | exact Hn].
           ++ eapply Forall_impl; [exact Hall|]. intros le (H1 & H2 & H3).
              split; [intros Hc; apply H1, elem_of_union; right; exact Hc|].
              split; [right; exact H2 | exact H3].
    + destruct (IH saved) as [Hnd Hall]. split; [exact Hnd|].
      eapply Forall_impl; [exact Hall|]. intros le (H1 & H2 & H3).
      split; [exact H1|]. split; [right; exact H2 | exact H3].
Qed.

Section Names_claims.
Context `{Externals}.

(** X5. The name pass keeps the number and the order of the tags and
    clears exactly the first name tag of each language: a presented tag
    with a non-empty value and a name key is cleared when no earlier tag
    of the element is a name tag of the same language; every other tag
    (a later duplicate too) is left as it is. *)
Theorem extract_names_clears_first_per_language (tags : list Tag) (params : FeatureParams) :
  let tags' := fst (ExtractNames.run tags params) in
  length tags' = length tags
  /\ forall i e, tags !! i = Some e ->
       tags' !! i
       = Some (match name_lang_of_tag e with
               | Some l => if has_name_lang l (firstn i tags) then e else cleared
               | None => e
               end).
Proof.
  cbv zeta. unfold ExtractNames.run, ForEachTag. cbn [TResult_default TResult_bool].
  destruct (ExtractNames_loop tags ∅ params) as (saved' & ->). cbn [fst].
  split; [apply length_imap|].
  intros i e Hi. rewrite list_lookup_imap, Hi. cbn [fmap option_fmap option_map].
  destruct (name_lang_of_tag e) as [l|]; [|reflexivity].
  rewrite bool_decide_eq_false_2 by apply not_elem_of_empty. reflexivity.
Qed.

(** X6. The name pass calls [AddName] once for each language that occurs
    among the name tags, with the normalised value of the first tag of
    that language, in tag order, and does nothing else to the record. *)
Theorem extract_names_stores_once (tags : list Tag) (params : FeatureParams) :
  let stored := stored_names ∅ tags in
  snd (ExtractNames.run tags params)
  = fold_left (fun p le => AddName (fst le) (NFKC (Str.c_str (value (snd le)))) p)
              stored params
  /\ NoDup (map fst stored)
  /\ Forall (fun le => In (snd le) tags /\ name_lang_of_tag (snd le) = Some (fst le)) stored
  /\ (forall l, has_name_lang l tags = true -> In l (map fst stored)).
Proof.
  cbv zeta. unfold ExtractNames.run, ForEachTag. cbn [TResult_default TResult_bool].
  destruct (ExtractNames_loop tags ∅ params) as (saved' & ->). cbn [snd ExtractNames.m_params].
  split; [reflexivity|].
  destruct (stored_names_fresh tags ∅) as [Hnd Hall].
  split; [exact Hnd|]. split.
  - eapply Forall_impl; [exact Hall|]. intros le (_ & H2 & H3). split; assumption.
  - intros l Hl.
    assert (Hgen : forall saved, l ∈ saved \/ In l (map fst (stored_names saved tags))).
    { clear -Hl. induction tags as [|e rest IH]; intros saved; [discriminate|].
      cbn [has_name_lang existsb] in Hl. fold (has_name_lang l rest) in Hl.
      cbn [stored_names]. destruct (name_lang_of_tag e) as [le|].
      - destruct (String.eqb_spec l le) as [->|Hne].
        + destruct (decide (le ∈ saved)) as [Hin|Hnin]; [left; exact Hin|].
          right. left. reflexivity.
        + cbn [orb] in Hl. destruct (decide (le ∈ saved)) as [Hin|Hnin].
          * exact (IH Hl saved).
          * destruct (IH Hl ({[le]} ∪ saved)) as [Hc|Hc].
            -- apply elem_of_union in Hc as [Hc|Hc]; [|left; exact Hc].
               apply elem_of_singleton in Hc. contradiction.
            -- right. right. exact Hc.
      - cbn [orb] in Hl. exact (IH Hl saved). }
    destruct (Hgen ∅) as [Hc|Hc]; [|exact Hc].
    apply not_elem_of_empty in Hc. contradiction.
Qed.
End Names_claims.

Lemma stored_names_first tags : forall saved l e',
  In (l, e') (stored_names saved tags) <-> (l ∉ saved) /\ first_name_tag l tags = Some e'.
Proof.
  induction tags as [|e rest IH]; intros saved l e'.
  - cbn. split; [intros [] | intros [_ Hc]; discriminate].
  - cbn [stored_names first_name_tag List.find]. fold (first_name_tag l rest).
    destruct (name_lang_of_tag e) as [le|].
    + destruct (String.eqb_spec l le) as [<-|Hne].
      * destruct (decide (l ∈ saved)) as [Hin|Hnin].
        -- rewrite IH. split; intros [Hc _]; contradiction.
        -- cbn [In]. rewrite IH. split.
           ++ intros [Heq|[Hc _]].
              ** injection Heq as <-. split; [exact Hnin | reflexivity].
              ** exfalso. apply Hc, elem_of_union. left. apply elem_of_singleton. reflexivity.
           ++ intros [_ Heq]. injection Heq as <-. left. reflexivity.
      * destruct (decide (le ∈ saved)) as [Hin|Hnin]; [apply IH|].
        cbn [In]. rewrite IH. split.
        -- intros [Heq|[Hc Hf]]; [injection Heq as -> _; contradiction|].
           split; [|exact Hf]. intros Hs. apply Hc, elem_of_union. right. exact Hs.
        -- intros [Hs Hf]. right. split; [|exact Hf].
           intros Hc. apply elem_of_union in Hc as [Hc|Hc]; [|contradiction].
           apply elem_of_singleton in Hc. contradiction.
    + apply IH.
Qed.

Lemma first_name_tag_at l tags : forall i e,
  tags !! i = Some e -> name_lang_of_tag e = Some l ->
  has_name_lang l (firstn i tags) = false -> first_name_tag l tags = Some e.
Proof.
  induction tags as [|x rest IH]; intros i e Hi Hn Hno; [discriminate|].
  destruct i as [|i].
  - injection Hi as ->. unfold first_name_tag. cbn [List.find].
    rewrite Hn, String.eqb_refl. reflexivity.
  - cbn [firstn has_name_lang existsb] in Hno. fold (has_name_lang l (firstn i rest)) in Hno.
    apply orb_false_iff in Hno as [Hx Hrest].
    unfold first_name_tag. cbn [List.find]. rewrite Hx.
    apply (IH i e Hi Hn Hrest).
Qed.

Lemma first_name_tag_before l tags : forall i,
  has_name_lang l (firstn i tags) = true ->
  exists j e0, j < i /\ tags !! j = Some e0 /\ name_lang_of_tag e0 = Some l
               /\ has_name_lang l (firstn j tags) = false
               /\ first_name_tag l tags = Some e0.
Proof.
  induction tags as [|x rest IH]; intros i Hhas.
  - destruct i; discriminate.
  - destruct i as [|i]; [discriminate|].
    cbn [firstn has_name_lang existsb] in Hhas.
    fold (has_name_lang l (firstn i rest)) in Hhas.
    destruct (name_lang_of_tag x) as [lx|] eqn:Hx.
    + destruct (String.eqb_spec l lx) as [<-|Hne].
      * exists 0, x. split; [lia|]. split; [reflexivity|]. split; [exact Hx|].
        split; [reflexivity|]. unfold first_name_tag. cbn [List.find].
        rewrite Hx, String.eqb_refl. reflexivity.
      * cbn [orb] in Hhas. destruct (IH i Hhas) as (j & e0 & Hj & Hl & Hn & Hno & Hf).
        exists (S j), e0. split; [lia|]. split; [exact Hl|]. split; [exact Hn|]. split.
        -- cbn [firstn has_name_lang existsb]. rewrite Hx.
           destruct (String.eqb_spec l lx); [contradiction|]. exact Hno.
        -- unfold first_name_tag. cbn [List.find]. rewrite Hx.
           destruct (String.eqb_spec l lx); [contradiction|]. exact Hf.
    + cbn [orb] in Hhas. destruct (IH i Hhas) as (j & e0 & Hj & Hl & Hn & Hno & Hf).
      exists (S j), e0. split; [lia|]. split; [exact Hl|]. split; [exact Hn|]. split.
      * cbn [firstn has_name_lang existsb]. rewrite Hx. exact Hno.
      * unfold first_name_tag. cbn [List.find]. rewrite Hx. exact Hf.
Qed.

Section Name_pass.
Context `{Externals}.

(** C2 (amended). The name pass, for a tag of the element with a
    non-empty value whose key denotes a name of the language [lang].
    The pass calls [AddName] once for each language, with the value of
    the first name tag of that language, and nothing else changes the
    record.  If [IgnoreTag] lets the tag through and no earlier tag is a
    name tag of [lang], the tag is the one stored and it is consumed.
    If an earlier tag is a name tag of [lang], the tag is left as it is
    and the value stored for [lang] is that of the first such tag, which
    is consumed.  If [IgnoreTag] rejects the tag (the value no, false or
    -1), the tag is left as it is and nothing is stored from it. *)
Theorem name_tag_processing (tags : list Tag) (params : FeatureParams)
  (i : nat) (e : Tag) (lang : string)
  (Hi : tags !! i = Some e) (Hv : value e <> "") (Hk : lang_of_key (key e) = Some lang) :
  let tags' := fst (ExtractNames.run tags params) in
  let stored := stored_names ∅ tags in
  snd (ExtractNames.run tags params)
  = fold_left (fun p le => AddName (fst le) (NFKC (Str.c_str (value (snd le)))) p)
              stored params
  /\ NoDup (map fst stored)
  /\ (forall l e', In (l, e') stored <-> first_name_tag l tags = Some e')
  /\ (IgnoreTag (key e) (value e) = false ->
      has_name_lang lang (firstn i tags) = false ->
      tags' !! i = Some cleared /\ first_name_tag lang tags = Some e)
  /\ (IgnoreTag (key e) (value e) = false ->
      has_name_lang lang (firstn i tags) = true ->
      tags' !! i = Some e
      /\ exists j e0, j < i /\ tags !! j = Some e0
                      /\ IgnoreTag (key e0) (value e0) = false
                      /\ value e0 <> "" /\ lang_of_key (key e0) = Some lang
                      /\ tags' !! j = Some cleared
                      /\ first_name_tag lang tags = Some e0)
  /\ (IgnoreTag (key e) (value e) = true ->
      tags' !! i = Some e /\ forall l, ~ In (l, e) stored).
Proof.
  cbv zeta. unfold ExtractNames.run, ForEachTag. cbn [TResult_default TResult_bool].
  destruct (ExtractNames_loop tags ∅ params) as (saved' & ->).
  cbn [fst snd ExtractNames.m_params].
  assert (Hat : forall j x, tags !! j = Some x ->
                  imap (fun i e =>
                          match name_lang_of_tag e with
                          | Some l =>
                              if bool_decide (l ∈ (∅ : gset string))
                                 || has_name_lang l (firstn i tags)
                              then e else cleared
                          | None => e
                          end) tags !! j
                  = Some (match name_lang_of_tag x with
                          | Some l => if has_name_lang l (firstn j tags) then x else cleared
                          | None => x
                          end)).
  { intros j x Hj. rewrite list_lookup_imap, Hj. cbn [fmap option_fmap option_map].
    destruct (name_lang_of_tag x) as [l|]; [|reflexivity].
    rewrite bool_decide_eq_false_2 by apply not_elem_of_empty. reflexivity. }
  assert (Hempty : Str.empty (value e) = false).
  { destruct (value e); [contradiction | reflexivity]. }
  destruct (stored_names_fresh tags ∅) as [Hnd Hall].
  split; [reflexivity|]. split; [exact Hnd|].
  split.
  { intros l e'. rewrite stored_names_first. split; [intros [_ Hf]; exact Hf|].
    intros Hf. split; [apply not_elem_of_empty | exact Hf]. }
  split; [|split].
  - intros Hig Hno.
    assert (Hn : name_lang_of_tag e = Some lang).
    { unfold name_lang_of_tag, visible. rewrite Hig, Hempty. exact Hk. }
    split; [pose proof (Hat i e Hi) as Hie; rewrite Hn, Hno in Hie; exact Hie|].
    apply (first_name_tag_at lang tags i e Hi Hn Hno).
  - intros Hig Hhas.
    assert (Hn : name_lang_of_tag e = Some lang).
    { unfold name_lang_of_tag, visible. rewrite Hig, Hempty. exact Hk. }
    split; [pose proof (Hat i e Hi) as Hie; rewrite Hn, Hhas in Hie; exact Hie|].
    destruct (first_name_tag_before lang tags i Hhas) as (j & e0 & Hj & Hl & Hn0 & Hno & Hf).
    exists j, e0. split; [exact Hj|]. split; [exact Hl|].
    assert (Hparts : IgnoreTag (key e0) (value e0) = false /\ value e0 <> ""
                     /\ lang_of_key (key e0) = Some lang).
    { unfold name_lang_of_tag, visible in Hn0.
      destruct (IgnoreTag (key e0) (value e0)); [discriminate|].
      destruct (value e0); [discriminate|]. cbn in Hn0.
      split; [reflexivity|]. split; [discriminate | exact Hn0]. }
    destruct Hparts as (H1 & H2 & H3).
    split; [exact H1|]. split; [exact H2|]. split; [exact H3|].
    split; [pose proof (Hat j e0 Hl) as Hje; rewrite Hn0, Hno in Hje; exact Hje | exact Hf].
  - intros Hig.
    assert (Hn : name_lang_of_tag e = None).
    { unfold name_lang_of_tag, visible. rewrite Hig. reflexivity. }
    split; [pose proof (Hat i e Hi) as Hie; rewrite Hn in Hie; exact Hie|].
    intros l Hin. rewrite Forall_forall in Hall.
    apply list_elem_of_In in Hin.
    destruct (Hall (l, e) Hin) as (_ & _ & Hc). cbn [fst snd] in Hc. congruence.
Qed.
End Name_pass.

(** ** Name keys and the walker *)

Lemma string_app_cons c (a b : string) :
  String.append (String c a) b = String c (String.append a b).
Proof. reflexivity. Qed.

Lemma string_app_assoc (a b c : string) :
  String.append (String.append a b) c = String.append a (String.append b c).
Proof.
  induction a as [|x a IH]; [reflexivity|].
  rewrite !string_app_cons, IH. reflexivity.
Qed.

Lemma prefix_append n b : String.prefix n (String.append n b) = true.
Proof.
  induction n as [|c n IH]; [destruct b; reflexivity|].
  rewrite string_app_cons. cbn [String.prefix].
  destruct (ascii_dec c c); [exact IH | contradiction].
Qed.

Lemma contains_middle n a b :
  Str.contains n (String.append a (String.append n b)) = true.
Proof.
  induction a as [|c a IH].
  - change (String.append "" (String.append n b)) with (String.append n b).
    pose proof (prefix_append n b) as Hp.
    destruct (String.append n b); cbn [Str.contains]; rewrite Hp; reflexivity.
  - rewrite string_app_cons. cbn [Str.contains]. rewrite IH.
    destruct (String.prefix n _); reflexivity.
Qed.

Lemma split_not_nil s : SimpleTokenizer.split s <> [].
Proof.
  destruct s as [|c r]; cbn; [discriminate|].
  destruct (SimpleTokenizer.is_delim c); [discriminate|].
  destruct (SimpleTokenizer.split r); discriminate.
Qed.

(** The first piece of a split is a prefix of the string. *)
Lemma split_head s : forall t ts,
  SimpleTokenizer.split s = t :: ts -> exists b, s = String.append t b.
Proof.
  induction s as [|c r IH]; intros t ts Hs.
  - cbn in Hs. injection Hs as <- <-. exists "". reflexivity.
  - cbn in Hs. destruct (SimpleTokenizer.is_delim c).
    + injection Hs as <- <-. exists (String c r). reflexivity.
    + destruct (SimpleTokenizer.split r) as [|t0 ts0] eqn:Hr.
      * exfalso. exact (split_not_nil r Hr).
      * injection Hs as <- <-. destruct (IH t0 ts0 eq_refl) as (b & ->).
        exists b. reflexivity.
Qed.

(** Every piece of a split is a substring of the string. *)
Lemma split_substring s : forall t,
  In t (SimpleTokenizer.split s) ->
  exists a b, s = String.append a (String.append t b).
Proof.
  induction s as [|c r IH]; intros t Hin.
  - cbn in Hin. destruct Hin as [<-|[]]. exists "", "". reflexivity.
  - cbn in Hin. destruct (SimpleTokenizer.is_delim c).
    + destruct Hin as [<-|Hin]; [exists "", (String c r); reflexivity|].
      destruct (IH t Hin) as (a & b & ->). exists (String c a), b. reflexivity.
    + destruct (SimpleTokenizer.split r) as [|t0 ts0] eqn:Hr.
      * exfalso. exact (split_not_nil r Hr).
      * destruct Hin as [<-|Hin].
        -- destruct (split_head r t0 ts0 Hr) as (b & ->). exists "", b. reflexivity.
        -- destruct (IH t (or_intror Hin)) as (a & b & ->).
           exists (String c a), b. reflexivity.
Qed.

(** X7. Every key the name extractor takes for a name contains ["name"],
    so the walker never hands it to a matching functor: a name tag the
    extractor leaves in the element (a duplicate of a stored language)
    cannot start or extend a classification path. *)
Theorem name_keys_are_skipped_by_walker (k lang : string)
  (Hname : lang_of_key k = Some lang) :
  Str.contains "name" k = true
  /\ forall v, matchable (mkTag k v) = false.
Proof.
  assert (Hc : Str.contains "name" k = true).
  { unfold lang_of_key in Hname.
    destruct (SimpleTokenizer.tokens k) as [|tok more] eqn:Htok; [discriminate|].
    assert (Hin : In tok (SimpleTokenizer.split k)).
    { assert (Hin : In tok (SimpleTokenizer.tokens k)) by (rewrite Htok; left; reflexivity).
      unfold SimpleTokenizer.tokens in Hin. apply List.filter_In in Hin as [Hin _].
      exact Hin. }
    destruct (split_substring k tok Hin) as (a & b & ->).
    destruct (String.eqb_spec tok "int_name") as [->|_].
    - change (String.append "int_name" b) with (String.append "int_" (String.append "name" b)).
      rewrite <- string_app_assoc. apply contains_middle.
    - destruct (String.eqb_spec tok "name") as [->|_]; [|discriminate].
      apply contains_middle. }
  split; [exact Hc|].
  intros v. unfold matchable. cbn [key]. rewrite Hc. apply andb_false_r.
Qed.

(** ** The tag iterations and the walker *)

(** X8. A functor that takes the key and the value by const reference
    leaves the element as it is, and with any functor [ForEachTag] keeps
    the number of tags and every tag that [IgnoreTag] rejects. *)
Theorem ForEachTag_keeps_tags {R : Type} `{TResult R} {St : Type} (tags : list Tag) (st : St) :
  (forall f : string -> string -> St -> R * St,
      snd (fst (ForEachTag (const_ToDo f) tags st)) = tags)
  /\ (forall toDo : @ToDo R St,
         let tags' := snd (fst (ForEachTag toDo tags st)) in
         length tags' = length tags
         /\ forall i e, tags !! i = Some e -> visible e = false -> tags' !! i = Some e).
Proof.
  unfold ForEachTag. generalize (@TResult_default R _) as res. revert st.
  induction tags as [|e rest IH]; intros st res.
  - split; [reflexivity|]. intros toDo. cbn. split; [reflexivity|]. intros i x Hx. discriminate.
  - split.
    + intros f. cbn [ForEachTag_loop].
      destruct (IgnoreTag (key e) (value e)).
      * destruct (IH st res) as [IHc _]. specialize (IHc f).
        destruct (ForEachTag_loop (const_ToDo f) res rest st) as [[r t] s]. cbn in *.
        congruence.
      * unfold const_ToDo at 1. destruct (f (key e) (value e) st) as [r1 s1].
        destruct e as [k v]. cbn [key value].
        destruct (to_bool r1); [reflexivity|].
        destruct (IH s1 r1) as [IHc _]. specialize (IHc f).
        destruct (ForEachTag_loop (const_ToDo f) r1 rest s1) as [[r t] s]. cbn in *.
        congruence.
    + intros toDo. cbv zeta. cbn [ForEachTag_loop].
      destruct (IgnoreTag (key e) (value e)) eqn:Hig.
      * destruct (IH st res) as [_ IHt]. specialize (IHt toDo). cbv zeta in IHt.
        destruct (ForEachTag_loop toDo res rest st) as [[r t] s]. cbn [fst snd] in *.
        destruct IHt as [Hlen Hkeep]. split; [simpl; congruence|].
        intros [|i] x Hx Hv; [exact Hx | apply (Hkeep i x Hx Hv)].
      * destruct (toDo (key e) (value e) st) as [[r1 [k' v']] s1].
        destruct (to_bool r1).
        -- cbn [fst snd]. split; [reflexivity|].
           intros [|i] x Hx Hv; [|exact Hx].
           injection Hx as <-. unfold visible in Hv. rewrite Hig in Hv. discriminate.
        -- destruct (IH s1 r1) as [_ IHt]. specialize (IHt toDo). cbv zeta in IHt.
           destruct (ForEachTag_loop toDo r1 rest s1) as [[r t] s]. cbn [fst snd] in *.
           destruct IHt as [Hlen Hkeep]. split; [simpl; congruence|].
           intros [|i] x Hx Hv; [|apply (Hkeep i x Hx Hv)].
           injection Hx as <-. unfold visible in Hv. rewrite Hig in Hv. discriminate.
Qed.

(** The functor of [ForEachTagEx] is consulted on matchable tags only. *)
Lemma ForEachTagEx_loop_agree {R : Type} `{TResult R} {St : Type}
  (toDo toDo' : string -> string -> St -> R * St) tags :
  (forall e, In e tags -> matchable e = true ->
             forall s, toDo (key e) (value e) s = toDo' (key e) (value e) s) ->
  forall res s,
    ForEachTag_loop (const_ToDo (ForEachTagEx_lambda toDo)) res tags s
    = ForEachTag_loop (const_ToDo (ForEachTagEx_lambda toDo')) res tags s.
Proof.
  induction tags as [|e rest IH]; intros Hag res s; [reflexivity|].
  assert (Hrest : forall e', In e' rest -> matchable e' = true ->
                  forall s, toDo (key e') (value e') s = toDo' (key e') (value e') s).
  { intros e' He'. apply Hag. right; exact He'. }
  cbn [ForEachTag_loop]. destruct (IgnoreTag (key e) (value e)) eqn:Hig.
  - rewrite (IH Hrest). reflexivity.
  - assert (Hlam : ForEachTagEx_lambda toDo (key e) (value e) s
                   = ForEachTagEx_lambda toDo' (key e) (value e) s).
    { destruct s as [[id skip] st]. unfold ForEachTagEx_lambda.
      destruct (decide (id ∈ skip)); [reflexivity|].
      destruct (Str.contains "name" (key e)) eqn:Hname; [reflexivity|].
      rewrite (Hag e (or_introl eq_refl)); [reflexivity|].
      unfold matchable, visible. rewrite Hig, Hname. reflexivity. }
    unfold const_ToDo at 1 3. rewrite Hlam.
    destruct (ForEachTagEx_lambda toDo' (key e) (value e) s) as [r1 s1].
    destruct (to_bool r1); [reflexivity|]. rewrite (IH Hrest). reflexivity.
Qed.

Lemma ForEachTagEx_agree {R : Type} `{TResult R} {St : Type}
  (toDo toDo' : string -> string -> St -> R * St) (tags : list Tag)
  (skip : gset nat) (st : St) :
  (forall e, In e tags -> matchable e = true ->
             forall s, toDo (key e) (value e) s = toDo' (key e) (value e) s) ->
  ForEachTagEx toDo tags skip st = ForEachTagEx toDo' tags skip st.
Proof.
  intros Hagree. unfold ForEachTagEx, ForEachTag.
  rewrite (ForEachTagEx_loop_agree toDo toDo' tags Hagree). reflexivity.
Qed.

(** X9. [ForEachTagEx] never hands its functor a tag that [IgnoreTag]
    rejects or whose key contains ["name"]: two functors that agree on
    the other tags of the element give the same scan. *)
Theorem ForEachTagEx_consults_matchable_only {R : Type} `{TResult R} {St : Type}
  (toDo toDo' : string -> string -> St -> R * St) (tags : list Tag)
  (skip : gset nat) (st : St)
  (Hagree : forall e, In e tags -> matchable e = true ->
                      forall s, toDo (key e) (value e) s = toDo' (key e) (value e) s) :
  ForEachTagEx toDo tags skip st = ForEachTagEx toDo' tags skip st.
Proof. apply ForEachTagEx_agree, Hagree. Qed.

(** A scan stops at the first true answer: until then the functor state
    is the one the scan began with. *)
Lemma ForEachTagEx_loop_stops {R : Type} `{TResult R} {St : Type}
  (toDo : string -> string -> St -> R * St) (ini : St) (Q : R -> St -> Prop) tags :
  (forall e r s', In e tags -> toDo (key e) (value e) ini = (r, s') ->
                  if to_bool r then Q r s' else s' = ini) ->
  forall res id skip r tags' id' skip' st',
    to_bool res = false ->
    ForEachTag_loop (const_ToDo (ForEachTagEx_lambda toDo)) res tags (id, skip, ini)
    = (r, tags', (id', skip', st')) ->
    if to_bool r then Q r st' else st' = ini.
Proof.
  induction tags as [|e rest IH]; intros Hq res id skip r tags' id' skip' st' Hres Hrun.
  - cbn in Hrun. injection Hrun as <- <- <- <- <-. rewrite Hres. reflexivity.
  - assert (Hrest : forall e' r s', In e' rest -> toDo (key e') (value e') ini = (r, s') ->
                    if to_bool r then Q r s' else s' = ini).
    { intros e' r0 s0 He'. apply Hq. right; exact He'. }
    cbn [ForEachTag_loop] in Hrun.
    destruct (IgnoreTag (key e) (value e)).
    + destruct_loop Hrun. injection Hrun as <- <- <- <- <-.
      exact (IH Hrest _ _ _ _ _ _ _ _ Hres Hrec).
    + unfold const_ToDo at 1 in Hrun. unfold ForEachTagEx_lambda at 1 in Hrun.
      destruct (decide (id ∈ skip)).
      { rewrite default_false in Hrun. destruct_loop Hrun.
        injection Hrun as <- <- <- <- <-.
        exact (IH Hrest _ _ _ _ _ _ _ _ default_false Hrec). }
      destruct (Str.contains "name" (key e)).
      { rewrite default_false in Hrun. destruct_loop Hrun.
        injection Hrun as <- <- <- <- <-.
        exact (IH Hrest _ _ _ _ _ _ _ _ default_false Hrec). }
      destruct (toDo (key e) (value e) ini) as [r1 s1] eqn:Hcall.
      pose proof (Hq e r1 s1 (or_introl eq_refl) Hcall) as Hq1.
      destruct (to_bool r1) eqn:Hb.
      * rewrite Hb in Hrun. injection Hrun as <- <- <- <- <-. rewrite Hb. exact Hq1.
      * rewrite Hb in Hrun. subst s1. destruct_loop Hrun.
        injection Hrun as <- <- <- <- <-.
        exact (IH Hrest _ _ _ _ _ _ _ _ Hb Hrec).
Qed.

Lemma ForEachTagEx_stops {R : Type} `{TResult R} {St : Type}
  (toDo : string -> string -> St -> R * St) (ini : St) (Q : R -> St -> Prop)
  tags skip r skip' st' :
  (forall e r s', In e tags -> toDo (key e) (value e) ini = (r, s') ->
                  if to_bool r then Q r s' else s' = ini) ->
  ForEachTagEx toDo tags skip ini = (r, skip', st') ->
  if to_bool r then Q r st' else st' = ini.
Proof.
  intros Hq Hrun. unfold ForEachTagEx, ForEachTag in Hrun.
  destruct_loop Hrun. injection Hrun as <- <- <-.
  exact (ForEachTagEx_loop_stops toDo ini Q tags Hq _ _ _ _ _ _ _ _ default_false Hrec).
Qed.

Section Paths.
Context `{Externals}.

Lemma chain_snoc c path s e :
  chain c path -> BinaryFind (end_of c path) s = Some e -> chain c (path ++ [e]).
Proof.
  induction 1 as [c|c s0 e0 rest Hfind Hrest IH]; intros He.
  - cbn in He. exact (chain_cons c s e [] He (chain_nil _)).
  - cbn [app]. apply (chain_cons c s0 e0 _ Hfind). apply IH.
    unfold end_of in *. destruct rest as [|e1 rest']; [exact He|].
    rewrite last_cons_cons in He.
    destruct (last (e1 :: rest')) eqn:Hl; [exact He|].
    apply last_None in Hl. discriminate.
Qed.

Lemma end_of_snoc c path e : end_of c (path ++ [e]) = fst e.
Proof. unfold end_of. rewrite last_snoc. reflexivity. Qed.

(** What [matchTagToClassificator] does to a path that ends in
    [current]: nothing when it answers false, one or two more links
    when it answers true. *)
Lemma matchTagToClassificator_chain current k v path r path' :
  chain GetRoot path -> end_of GetRoot path = current ->
  matchTagToClassificator current k v path = (r, path') ->
  if to_bool r
  then chain GetRoot path' /\ path' <> [] /\ exists more, path' = path ++ more
  else path' = path.
Proof.
  intros Hch Hend. unfold matchTagToClassificator.
  destruct (BinaryFind current k) as [elem|] eqn:Hk;
    [|intros Hm; injection Hm as <- <-; reflexivity].
  assert (Hch1 : chain GetRoot (path ++ [elem])).
  { apply (chain_snoc _ _ k). exact Hch. rewrite Hend. exact Hk. }
  destruct (NeedMatchValue k v); [destruct (BinaryFind (fst elem) v) as [elem'|] eqn:Hv|];
    intros Hm; injection Hm as <- <-; cbn [to_bool TResult_bool].
  - split; [|split].
    + apply (chain_snoc _ _ v); [exact Hch1|]. rewrite end_of_snoc. exact Hv.
    + intros Hc. apply app_eq_nil in Hc as [_ Hc]. discriminate.
    + exists [elem; elem']. rewrite <- app_assoc. reflexivity.
  - split; [exact Hch1|]. split.
    + intros Hc. apply app_eq_nil in Hc as [_ Hc]. discriminate.
    + exists [elem]. reflexivity.
  - split; [exact Hch1|]. split.
    + intros Hc. apply app_eq_nil in Hc as [_ Hc]. discriminate.
    + exists [elem]. reflexivity.
Qed.

Lemma extendPath_chain tags fuel : forall skip path skip' path',
  chain GetRoot path -> path <> [] ->
  extendPath fuel tags skip path = Done (skip', path') ->
  chain GetRoot path' /\ path' <> [] /\ exists more, path' = path ++ more.
Proof.
  induction fuel as [|fuel IH]; intros skip path skip' path' Hch Hne Hrun; [discriminate|].
  cbn [extendPath] in Hrun.
  destruct (last path) as [back|] eqn:Hlast; [|discriminate].
  assert (Hend : end_of GetRoot path = fst back) by (unfold end_of; rewrite Hlast; reflexivity).
  destruct (ForEachTagEx (matchValue (fst back)) tags skip tt) as [[pObj skip1] u1] eqn:Hval.
  pose proof (ForEachTagEx_stops (matchValue (fst back)) tt
                (fun r _ => exists v, BinaryFind (fst back) v = r) tags skip pObj skip1 u1)
    as Hstop.
  destruct pObj as [o|].
  - destruct (Hstop) as (v & Hv); [|exact Hval|].
    { intros e r s' _ Hm. unfold matchValue in Hm. injection Hm as <- <-.
      destruct (negb (NeedMatchValue (key e) (value e))); [reflexivity|].
      destruct (BinaryFind (fst back) (value e)) eqn:Hf; cbn; [|reflexivity].
      exists (value e). exact Hf. }
    assert (Hch1 : chain GetRoot (path ++ [o])).
    { apply (chain_snoc _ _ v); [exact Hch|]. rewrite Hend. exact Hv. }
    destruct (IH skip1 (path ++ [o]) skip' path' Hch1) as (Hc & Hn & more & Hm);
      [intros Hc; apply app_eq_nil in Hc as [_ Hc]; discriminate | exact Hrun |].
    split; [exact Hc|]. split; [exact Hn|].
    exists ([o] ++ more). rewrite Hm, <- app_assoc. reflexivity.
  - clear Hstop.
    destruct (ForEachTagEx (matchTagToClassificator (fst back)) tags skip1 path)
      as [[found skip2] path2] eqn:Hkey.
    pose proof (ForEachTagEx_stops (matchTagToClassificator (fst back)) path
                  (fun _ p => chain GetRoot p /\ p <> [] /\ exists more, p = path ++ more)
                  tags skip1 found skip2 path2) as Hstop.
    assert (Hres : if to_bool found
                   then chain GetRoot path2 /\ path2 <> [] /\ exists more, path2 = path ++ more
                   else path2 = path).
    { apply Hstop; [|exact Hkey]. intros e r s' _ Hm.
      exact (matchTagToClassificator_chain _ _ _ _ _ _ Hch Hend Hm). }
    destruct found; cbn [negb to_bool TResult_bool] in *.
    + destruct Hres as (Hc2 & Hn2 & more2 & Hm2).
      destruct (IH skip2 path2 skip' path' Hc2 Hn2 Hrun) as (Hc & Hn & more & Hm).
      split; [exact Hc|]. split; [exact Hn|].
      exists (more2 ++ more). rewrite Hm, Hm2, <- app_assoc. reflexivity.
    + injection Hrun as <- <-. subst path2.
      split; [exact Hch|]. split; [exact Hne|]. exists []. rewrite app_nil_r. reflexivity.
Qed.

(** The record the outer loop returns: the codes of complete, drawable
    paths appended to the codes it started with. *)
Lemma MatchTypes_loop_adds tags fuel : forall skip params r trace,
  MatchTypes_loop fuel tags skip params = Done (r, trace) ->
  exists added,
    r = set_Types (m_Types params ++ added) params
    /\ S (length added) <= length trace
    /\ Forall (fun t => IsDrawableAny t = true
                        /\ exists path, path <> [] /\ chain GetRoot path
                                        /\ t = assignType path) added.
Proof.
  induction fuel as [|fuel IH]; intros skip params r trace Hrun; [discriminate|].
  cbn [MatchTypes_loop] in Hrun.
  destruct (ForEachTagEx (matchTagToClassificator GetRoot) tags skip [])
    as [[found skip1] path1] eqn:Hroot.
  pose proof (ForEachTagEx_stops (matchTagToClassificator GetRoot) []
                (fun _ p => chain GetRoot p /\ p <> [] /\ exists more, p = [] ++ more)
                tags skip found skip1 path1) as Hstop.
  assert (Hres : if to_bool found
                 then chain GetRoot path1 /\ path1 <> [] /\ exists more, path1 = [] ++ more
                 else path1 = []).
  { apply Hstop; [|exact Hroot]. intros e r0 s' _ Hm.
    exact (matchTagToClassificator_chain _ _ _ _ _ _ (chain_nil _) eq_refl Hm). }
  clear Hstop. destruct found; cbn [negb to_bool TResult_bool] in *.
  2:{ injection Hrun as <- <-. exists []. rewrite app_nil_r.
      split; [destruct params; reflexivity|]. split; [simpl; lia | constructor]. }
  destruct Hres as (Hc1 & Hn1 & _).
  destruct path1 as [|e1 path1]; [discriminate|].
  destruct (extendPath (S (length tags)) tags skip1 (e1 :: path1))
    as [[skip2 path2]| |] eqn:Hext; try discriminate.
  destruct (extendPath_chain _ _ _ _ _ _ Hc1 Hn1 Hext) as (Hc2 & Hn2 & _).
  destruct (MatchTypes_loop fuel tags skip2 _) as [[r' trace']| |] eqn:Hrec;
    try discriminate.
  injection Hrun as <- <-.
  destruct (IH _ _ _ _ Hrec) as (added & Hr & Hlen & Hall).
  destruct (IsDrawableAny (assignType path2)) eqn:Hdraw.
  - exists (assignType path2 :: added). split; [|split].
    + rewrite Hr. unfold AddType, set_Types. cbn. rewrite <- app_assoc. reflexivity.
    + simpl. lia.
    + constructor; [|exact Hall]. split; [exact Hdraw|]. exists path2. auto.
  - exists added. split; [exact Hr|]. split; [simpl; lia | exact Hall].
Qed.

(** X10. [MatchTypes] only appends to the codes of the record and touches
    no other field; it appends at most one code per tag; every code it
    appends passed [IsDrawableAny] and encodes a non-empty path of real
    parent-to-child links from the root of the classificator. *)
Theorem MatchTypes_adds_valid_codes (p : OsmElement) (params : FeatureParams) :
  exists added,
    MatchTypes p params = Done (set_Types (m_Types params ++ added) params)
    /\ length added <= length (m_tags p)
    /\ Forall (fun t => IsDrawableAny t = true
                        /\ exists path, path <> [] /\ chain GetRoot path
                                        /\ t = assignType path) added.
Proof.
  pose proof (remaining_le (m_tags p) ∅) as Hrem.
  destruct (MatchTypes_loop_spec (m_tags p) (S (length (m_tags p))) ∅ params)
    as (r & trace & Hrun & _ & Hlen & _); [lia|].
  destruct (MatchTypes_loop_adds _ _ _ _ _ _ Hrun) as (added & Hr & Hla & Hall).
  exists added. unfold MatchTypes, MatchTypes_trace. rewrite Hrun, Hr.
  split; [reflexivity|]. split; [lia | exact Hall].
Qed.

(** X11. When no matchable tag has a key that is a child of the root, the
    walker finds no path and returns the record as it was. *)
Theorem MatchTypes_without_root_match (p : OsmElement) (params : FeatureParams)
  (Hnone : forall e, In e (m_tags p) -> matchable e = true ->
                     BinaryFind GetRoot (key e) = None) :
  MatchTypes p params = Done params.
Proof.
  unfold MatchTypes, MatchTypes_trace. cbn [MatchTypes_loop].
  assert (Hag : ForEachTagEx (matchTagToClassificator GetRoot) (m_tags p) ∅ []
                = ForEachTagEx (fun _ _ path => (false, path)) (m_tags p) ∅ []).
  { apply ForEachTagEx_agree. intros e He Hm s.
    unfold matchTagToClassificator. rewrite (Hnone e He Hm). reflexivity. }
  rewrite Hag.
  destruct (ForEachTagEx (fun _ _ path => (false, path)) (m_tags p) ∅ [])
    as [[found skip1] path1] eqn:Hscan.
  pose proof (ForEachTagEx_stops (fun _ _ (path : list ClassifObjectPtr) => (false, path)) []
                (fun _ _ => False) (m_tags p) ∅ found skip1 path1) as Hstop.
  destruct found; cbn [negb]; [|reflexivity].
  exfalso. apply Hstop; [|exact Hscan].
  intros e r s' _ Hm. injection Hm as <- <-. reflexivity.
Qed.
End Paths.

Section Invisible_tags.
Context `{Externals}.

Lemma extendPath_more_fuel tags fuel : forall skip path x,
  extendPath fuel tags skip path = Done x ->
  extendPath (S fuel) tags skip path = Done x.
Proof.
  induction fuel as [|fuel IH]; intros skip path x Hrun; [discriminate|].
  cbn [extendPath] in Hrun. cbn [extendPath].
  destruct (last path) as [back|]; [|discriminate].
  destruct (ForEachTagEx (matchValue (fst back)) tags skip tt) as [[pObj skip1] u1].
  destruct pObj as [o|].
  - apply IH in Hrun. cbn [extendPath] in Hrun. exact Hrun.
  - destruct (ForEachTagEx (matchTagToClassificator (fst back)) tags skip1 path)
      as [[found skip2] path2].
    destruct (negb found); [exact Hrun|].
    apply IH in Hrun. cbn [extendPath] in Hrun. exact Hrun.
Qed.

Lemma extendPath_fuel_irrelevant tags skip path x fuel fuel' :
  fuel <= fuel' ->
  extendPath fuel tags skip path = Done x -> extendPath fuel' tags skip path = Done x.
Proof.
  induction 1 as [|fuel' _ IH]; intros Hrun; [exact Hrun|].
  apply extendPath_more_fuel, IH, Hrun.
Qed.

Lemma extendPath_visible tags fuel : forall skip path,
  extendPath fuel tags skip path = extendPath fuel (List.filter visible tags) skip path.
Proof.
  induction fuel as [|fuel IH]; intros skip path; [reflexivity|].
  cbn [extendPath]. destruct (last path) as [back|]; [|reflexivity].
  rewrite <- (ForEachTagEx_visible (matchValue (fst back))).
  destruct (ForEachTagEx (matchValue (fst back)) tags skip tt) as [[pObj skip1] u1].
  destruct pObj as [o|]; [apply IH|].
  rewrite <- (ForEachTagEx_visible (matchTagToClassificator (fst back))).
  destruct (ForEachTagEx (matchTagToClassificator (fst back)) tags skip1 path)
    as [[found skip2] path2].
  destruct (negb found); [reflexivity | apply IH].
Qed.

Lemma visible_count_filter tags : visible_count (List.filter visible tags) = visible_count tags.
Proof.
  unfold visible_count. f_equal.
  induction tags as [|e rest IH]; [reflexivity|].
  cbn [List.filter]. destruct (visible e) eqn:Hv; [|exact IH].
  cbn [List.filter]. rewrite Hv, IH. reflexivity.
Qed.

Lemma MatchTypes_loop_visible tags fuel : forall skip params,
  MatchTypes_loop fuel tags skip params
  = MatchTypes_loop fuel (List.filter visible tags) skip params.
Proof.
  induction fuel as [|fuel IH]; intros skip params; [reflexivity|].
  cbn [MatchTypes_loop]. rewrite <- ForEachTagEx_visible.
  destruct (ForEachTagEx (matchTagToClassificator GetRoot) tags skip [])
    as [[found skip1] path1].
  destruct (negb found); [reflexivity|].
  destruct path1 as [|e1 path1]; [reflexivity|].
  assert (Hext : extendPath (S (length tags)) tags skip1 (e1 :: path1)
                 = extendPath (S (length (List.filter visible tags)))
                     (List.filter visible tags) skip1 (e1 :: path1)).
  { rewrite extendPath_visible.
    destruct (extendPath_spec (List.filter visible tags)
                (S (length (List.filter visible tags))) skip1 (e1 :: path1))
      as (skip' & path' & Hrun & _); [discriminate| |].
    { pose proof (remaining_le (List.filter visible tags) skip1). lia. }
    rewrite Hrun.
    apply (extendPath_fuel_irrelevant _ _ _ _ (S (length (List.filter visible tags))));
      [|exact Hrun].
    pose proof (List.filter_length_le visible tags). lia. }
  rewrite Hext.
  destruct (extendPath _ (List.filter visible tags) skip1 (e1 :: path1))
    as [[skip2 path2]| |]; try reflexivity.
  rewrite IH. reflexivity.
Qed.

(** X12. The tags [IgnoreTag] rejects (consumed tags among them) have no
    influence on the walk: [MatchTypes] gives the same record on the
    element and on the element without them. *)
Theorem MatchTypes_ignores_invisible_tags (p : OsmElement) (params : FeatureParams) :
  MatchTypes p params = MatchTypes (mkElem (List.filter visible (m_tags p))) params.
Proof.
  unfold MatchTypes, MatchTypes_trace. cbn [m_tags].
  rewrite MatchTypes_loop_visible.
  pose proof (remaining_le (List.filter visible (m_tags p)) ∅) as Hrem.
  destruct (MatchTypes_loop_spec (List.filter visible (m_tags p))
              (S (length (List.filter visible (m_tags p)))) ∅ params)
    as (r & trace & Hrun & _); [lia|].
  rewrite Hrun.
  assert (Hle : S (length (List.filter visible (m_tags p))) <= S (length (m_tags p))).
  { pose proof (List.filter_length_le visible (m_tags p)). lia. }
  rewrite (MatchTypes_loop_fuel_irrelevant _ _ _ _ _ _ Hle Hrun).
  reflexivity.
Qed.
End Invisible_tags.

Section Value_necessity.
Context `{Externals}.

(** X13. A numeric value is no taxonomy label unless the key is
    [admin_level] or [capital]: for such a tag the key match adds the
    object found for the key and nothing for the value, and the value
    scan passes the tag over; a value that is not a number always takes
    part. *)
Theorem numeric_values_are_not_matched (current : ClassifObject) (k v : string)
  (path : list ClassifObjectPtr) :
  (is_number v = true -> k <> "admin_level" -> k <> "capital" ->
     matchValue current k v tt = (None, tt)
     /\ matchTagToClassificator current k v path
        = match BinaryFind current k with
          | Some elem => (true, path ++ [elem])
          | None => (false, path)
          end)
  /\ (is_number v = false \/ k = "admin_level" \/ k = "capital" ->
      matchValue current k v tt = (BinaryFind current v, tt)
      /\ matchTagToClassificator current k v path
         = match BinaryFind current k with
           | Some elem =>
               match BinaryFind (fst elem) v with
               | Some elem' => (true, (path ++ [elem]) ++ [elem'])
               | None => (true, path ++ [elem])
               end
           | None => (false, path)
           end).
Proof.
  unfold matchValue, matchTagToClassificator, NeedMatchValue. split.
  - intros Hnum Hk1 Hk2. rewrite Hnum.
    destruct (String.eqb_spec k "admin_level"); [contradiction|].
    destruct (String.eqb_spec k "capital"); [contradiction|].
    cbn [negb orb andb]. split; [reflexivity|].
    destruct (BinaryFind current k); reflexivity.
  - intros Hcase.
    assert (Hneed : negb (is_number v)
                    || is_number v && (String.eqb k "admin_level" || String.eqb k "capital")
                    = true).
    { destruct Hcase as [Hn|[->| ->]].
      - rewrite Hn. reflexivity.
      - destruct (is_number v); reflexivity.
      - destruct (is_number v); reflexivity. }
    rewrite Hneed. cbn [negb]. split; [reflexivity|].
    destruct (BinaryFind current k) as [elem|]; [|reflexivity].
    destruct (BinaryFind (fst elem) v); reflexivity.
Qed.
End Value_necessity.

(** ** Rule tables and the post-match rounds *)

(** X14. The exact firing condition of a rule, and the full scan: the
    action of a rule is reached exactly when the key of the tag, read as
    a C string, equals the key pattern and the value pattern starts with
    [*], or starts with [!] and the value is no, none or false, or
    starts with [~] and the value is none of these, or equals the value
    literally; and a table of [void()] callbacks leaves the tag as it is
    and runs the actions of all its rules that fire, in table order (a
    rule that fired does not end the scan). *)
Theorem rule_table_scans_every_rule {St : Type} (rules : list (TagProcessor.Rule St))
  (e : Tag) (st : St) :
  (forall rule : TagProcessor.Rule St,
      TagProcessor.fires rule e = true <->
      Str.c_str (key e) = TagProcessor.rkey rule
      /\ (Str.front (TagProcessor.rvalue rule) = "*"%char
          \/ (Str.front (TagProcessor.rvalue rule) = "!"%char
              /\ In (value e) ["no"; "none"; "false"])
          \/ (Str.front (TagProcessor.rvalue rule) = "~"%char
              /\ ~ In (value e) ["no"; "none"; "false"])
          \/ value e = TagProcessor.rvalue rule))
  /\ (all_Func0 rules = true ->
      TagProcessor.ApplyRules_tag rules e st
      = (e, fold_left (fun s r => act0 r s)
                      (List.filter (fun r => TagProcessor.fires r e) rules) st)).
Proof.
  split; [intros rule; apply fires_iff|].
  apply ApplyRules_tag_Func0.
Qed.

Section First_match.
Context `{Externals}.
Import GetNameAndType.

Lemma runs_outside_category r t s : in_category r t = false -> runs r t s = false.
Proof.
  intros Hc. destruct (runs r t s) eqn:Hr; [|reflexivity].
  destruct (runs_true r t s Hr) as [_ Hin]. congruence.
Qed.

Lemma runs_when_done r t s : done_flag r s = true -> runs r t s = false.
Proof.
  intros Hd. destruct (runs r t s) eqn:Hr; [|reflexivity].
  destruct (runs_true r t s Hr) as [Hf _]. congruence.
Qed.

Lemma postmatch_loop_app a : forall b i s,
  postmatch_loop i (a ++ b) s = postmatch_loop (i + length a) b (postmatch_loop i a s).
Proof.
  induction a as [|t a IH]; intros b i s.
  - cbn. rewrite Nat.add_0_r. reflexivity.
  - cbn [app postmatch_loop length]. rewrite IH. f_equal. lia.
Qed.

(** Codes outside the category of a round leave its log and its flag. *)
Lemma postmatch_loop_outside r l : forall i s,
  Forall (fun x => in_category r x = false) l ->
  fired_for r (fired (postmatch_loop i l s)) = fired_for r (fired s)
  /\ done_flag r (postmatch_loop i l s) = done_flag r s.
Proof.
  induction l as [|t l IH]; intros i s Hall; [split; reflexivity|].
  inversion Hall as [|? ? Ht Hl]; subst. cbn [postmatch_loop].
  destruct (IH (S i) (postmatch_body i t s) Hl) as [-> ->].
  rewrite fired_for_body, done_flag_body, (runs_outside_category r t s Ht).
  rewrite orb_false_r. split; reflexivity.
Qed.

(** Once the flag of a round is set, its log is final. *)
Lemma postmatch_loop_done r l : forall i s,
  done_flag r s = true ->
  fired_for r (fired (postmatch_loop i l s)) = fired_for r (fired s).
Proof.
  induction l as [|t l IH]; intros i s Hd; [reflexivity|].
  cbn [postmatch_loop]. rewrite IH.
  - rewrite fired_for_body, (runs_when_done r t s Hd). reflexivity.
  - rewrite done_flag_body, Hd. reflexivity.
Qed.

(** Once the subway round has run, the generic round is shut out. *)
Lemma postmatch_loop_subway_done l : forall i s,
  subwayDone s = true ->
  fired_for RailwayRound (fired (postmatch_loop i l s)) = fired_for RailwayRound (fired s).
Proof.
  induction l as [|t l IH]; intros i s Hd; [reflexivity|].
  cbn [postmatch_loop]. rewrite IH.
  - rewrite fired_for_body. cbn [runs].
    destruct (runs_railway t s) eqn:Hr; [|reflexivity].
    destruct (runs_railway_true t s Hr) as [Hf _]. congruence.
  - pose proof (done_flag_body SubwayRound i t s) as Hb. cbn [done_flag runs] in Hb.
    rewrite Hb, Hd. reflexivity.
Qed.

(** X15. First match wins, in code order.  A round whose category no code
    belongs to does not run.  The highway and the subway round run for
    the first code of their category.  The generic railway-station round
    runs for the first railway-station code when no subway code comes
    before it and that code is not a subway code itself; it does not run
    at all when a subway code comes before every railway-station code. *)
Theorem postmatch_first_match_wins (pre post : list Z) (t : Z) (tags : list Tag)
  (params : FeatureParams) :
  let log := fired (postmatch_on (pre ++ t :: post) tags params) in
  (forall r vTypes, Forall (fun x => in_category r x = false) vTypes ->
                    fired_for r (fired (postmatch_on vTypes tags params)) = [])
  /\ (Forall (fun x => CachedTypes.IsHighway x = false) pre ->
      CachedTypes.IsHighway t = true -> fired_for HighwayRound log = [length pre])
  /\ (Forall (fun x => CachedTypes.IsRwSubway x = false) pre ->
      CachedTypes.IsRwSubway t = true -> fired_for SubwayRound log = [length pre])
  /\ (Forall (fun x => CachedTypes.IsRwStation x = false) pre ->
      Forall (fun x => CachedTypes.IsRwSubway x = false) pre ->
      CachedTypes.IsRwStation t = true -> CachedTypes.IsRwSubway t = false ->
      fired_for RailwayRound log = [length pre])
  /\ (Forall (fun x => CachedTypes.IsRwStation x = false) pre ->
      CachedTypes.IsRwSubway t = true -> fired_for RailwayRound log = []).
Proof.
  cbv zeta. set (s0 := mkPost false false false tags params []).
  assert (Hsplit : postmatch_on (pre ++ t :: post) tags params
                   = postmatch_loop (S (length pre)) post
                       (postmatch_body (length pre) t (postmatch_loop 0 pre s0))).
  { unfold postmatch_on. fold s0. rewrite postmatch_loop_app. cbn [postmatch_loop].
    rewrite Nat.add_0_l. f_equal. }
  split.
  { intros r vTypes Hall. unfold postmatch_on. fold s0.
    destruct (postmatch_loop_outside r vTypes 0 s0 Hall) as [-> _]. reflexivity. }
  rewrite Hsplit. set (s1 := postmatch_loop 0 pre s0).
  split; [|split; [|split]].
  - intros Hpre Ht.
    destruct (postmatch_loop_outside HighwayRound pre 0 s0 Hpre) as [Hlog Hflag].
    fold s1 in Hlog, Hflag. cbn [done_flag fired s0] in Hlog, Hflag.
    rewrite (postmatch_loop_done HighwayRound).
    + rewrite fired_for_body, Hlog. cbn [runs]. unfold runs_highway.
      rewrite Hflag, Ht. reflexivity.
    + rewrite done_flag_body. cbn [done_flag runs]. unfold runs_highway.
      rewrite Hflag, Ht. reflexivity.
  - intros Hpre Ht.
    destruct (postmatch_loop_outside SubwayRound pre 0 s0 Hpre) as [Hlog Hflag].
    fold s1 in Hlog, Hflag. cbn [done_flag fired s0] in Hlog, Hflag.
    rewrite (postmatch_loop_done SubwayRound).
    + rewrite fired_for_body, Hlog. cbn [runs]. unfold runs_subway.
      rewrite Hflag, Ht. reflexivity.
    + rewrite done_flag_body. cbn [done_flag runs]. unfold runs_subway.
      rewrite Hflag, Ht. reflexivity.
  - intros Hst Hsub Ht Hns.
    destruct (postmatch_loop_outside RailwayRound pre 0 s0 Hst) as [Hlog Hflag].
    destruct (postmatch_loop_outside SubwayRound pre 0 s0 Hsub) as [_ Hsflag].
    fold s1 in Hlog, Hflag, Hsflag. cbn [done_flag fired s0] in Hlog, Hflag, Hsflag.
    rewrite (postmatch_loop_done RailwayRound).
    + rewrite fired_for_body, Hlog. cbn [runs]. unfold runs_railway, runs_subway.
      rewrite Hflag, Hsflag, Ht, Hns. reflexivity.
    + rewrite done_flag_body. cbn [done_flag runs]. unfold runs_railway, runs_subway.
      rewrite Hflag, Hsflag, Ht, Hns. reflexivity.
  - intros Hst Ht.
    destruct (postmatch_loop_outside RailwayRound pre 0 s0 Hst) as [Hlog _].
    fold s1 in Hlog. cbn [fired s0] in Hlog.
    rewrite postmatch_loop_subway_done.
    + rewrite fired_for_body, Hlog. cbn [runs]. unfold runs_railway, runs_subway.
      rewrite Ht. destruct (subwayDone s1); reflexivity.
    + pose proof (done_flag_body SubwayRound (length pre) t s1) as Hb.
      cbn [done_flag runs] in Hb. rewrite Hb. unfold runs_subway. rewrite Ht.
      destruct (subwayDone s1); reflexivity.
Qed.
End First_match.

Section Reverse_geometry.
Context `{Externals}.

(** Whichever rules of the highway table run, only the third (the
    [oneway], [-1] rule) touches the flag. *)
Lemma highway_rules_flag (f : TagProcessor.Rule FeatureParams -> bool) params :
  m_reverseGeometry
    (fold_left (fun s r => act0 r s) (List.filter f GetNameAndType.highway_rules) params)
  = m_reverseGeometry params
    || f (TagProcessor.mkRule "oneway" "-1"
            (TagProcessor.Func0
               (fun p => set_reverseGeometry true
                           (AddType (CachedTypes.Get CachedTypes.ONEWAY) p)))).
Proof.
  unfold GetNameAndType.highway_rules. cbn [List.filter].
  repeat match goal with
         | |- context [if f ?r then _ else _] => destruct (f r)
         end;
    cbn; rewrite ?orb_true_r, ?orb_false_r; reflexivity.
Qed.

Lemma highway_rules_tag_reverse e params :
  m_reverseGeometry (snd (TagProcessor.ApplyRules_tag GetNameAndType.highway_rules e params))
  = m_reverseGeometry params || is_oneway_reverse e.
Proof.
  rewrite (ApplyRules_tag_Func0 GetNameAndType.highway_rules e params eq_refl). cbn [snd].
  rewrite highway_rules_flag. reflexivity.
Qed.

Lemma highway_rules_reverse tags : forall params,
  m_reverseGeometry (snd (TagProcessor.ApplyRules GetNameAndType.highway_rules tags params))
  = m_reverseGeometry params || existsb is_oneway_reverse tags.
Proof.
  induction tags as [|e rest IH]; intros params.
  - cbn. rewrite orb_false_r. reflexivity.
  - cbn [TagProcessor.ApplyRules existsb].
    pose proof (highway_rules_tag_reverse e params) as He.
    destruct (TagProcessor.ApplyRules_tag GetNameAndType.highway_rules e params) as [e' p1].
    specialize (IH p1).
    destruct (TagProcessor.ApplyRules GetNameAndType.highway_rules rest p1) as [r' p2].
    cbn [snd] in *. rewrite IH, He, orb_assoc. reflexivity.
Qed.

(** X16. The highway round sets the reversed-geometry flag exactly when
    some tag of the element is [oneway=-1], and never clears it. *)
Theorem highway_round_reverses_on_oneway_minus_one (tags : list Tag)
  (params : FeatureParams) :
  m_reverseGeometry (snd (TagProcessor.ApplyRules GetNameAndType.highway_rules tags params))
  = m_reverseGeometry params || existsb is_oneway_reverse tags.
Proof. apply highway_rules_reverse. Qed.
End Reverse_geometry.

(** ** The whole function *)

Section Run.
Context `{Externals}.
Import GetNameAndType.

(** X17. [GetNameAndType], up to its call of [FinishAddingTypes], always
    runs to its end (the walk meets neither its iteration bound nor a
    failed check), and the tags it leaves in the element are those of
    the preprocessed element after the name pass and the base rules: the
    type walk, the address post-fix and the post-match rounds change no
    tag. *)
Theorem GetNameAndType_returns_rewritten_tags (p : OsmElement) (params : FeatureParams) :
  exists params',
    run p params
    = Done (mkElem (map base_tag
                      (fst (ExtractNames.run (m_tags (preprocess p)) params))),
            params').
Proof.
  unfold run.
  destruct (ExtractNames.run (m_tags (preprocess p)) params) as [tags2 params2].
  cbn [fst].
  pose proof (base_rules_tags tags2 params2) as Hbase.
  destruct (TagProcessor.ApplyRules base_rules tags2 params2) as [tags3 params3].
  cbn [fst] in Hbase. subst tags3.
  pose proof (remaining_le (map base_tag tags2) ∅) as Hrem.
  destruct (MatchTypes_loop_spec (map base_tag tags2) (S (length (map base_tag tags2))) ∅
              params3) as (r & trace & Hrun & _); [lia|].
  unfold MatchTypes, MatchTypes_trace. cbn [m_tags]. rewrite Hrun.
  eexists. unfold postmatch, postmatch_on. rewrite postmatch_loop_tags.
  cbn [post_tags]. reflexivity.
Qed.
End Run.

(** ** The points controller *)

Section PointsController_facts.
Context `{Framework}.
Import PointsController.

Lemma pushPoint_extends points point : exists more, pushPoint points point = points ++ more.
Proof.
  unfold pushPoint.
  destruct (negb (IsPointInside point)); [exists []; rewrite app_nil_r; reflexivity|].
  destruct (existsb _ points); [exists []; rewrite app_nil_r; reflexivity|].
  exists [point]. reflexivity.
Qed.

Lemma pushPoint_separated points point :
  separated points -> separated (pushPoint points point).
Proof.
  intros [Hin Hsep]. unfold pushPoint.
  destruct (IsPointInside point) eqn:Hins; cbn [negb]; [|split; assumption].
  destruct (existsb (PointsMatch point) points) eqn:Hex; [split; assumption|].
  split.
  - apply Forall_app. split; [exact Hin|]. constructor; [exact Hins | constructor].
  - intros i j a b Hij Hi Hj.
    destruct (lookup_app_Some points [point] j b) as [Hcase _].
    destruct (Hcase Hj) as [Hj'|[Hlen Hj']].
    + apply (Hsep i j a b Hij); [|exact Hj'].
      rewrite lookup_app_l in Hi; [exact Hi|].
      apply lookup_lt_Some in Hj'. lia.
    + destruct (j - length points) as [|n] eqn:Hn; [|destruct n; discriminate].
      injection Hj' as <-.
      rewrite lookup_app_l in Hi by lia.
      assert (Ha : In a points).
      { apply list_elem_of_In, list_elem_of_lookup. exists i. exact Hi. }
      destruct (PointsMatch point a) eqn:Hm; [|reflexivity].
      assert (Hc : existsb (PointsMatch point) points = true).
      { apply existsb_exists. exists a. split; assumption. }
      congruence.
Qed.

Lemma pushPoint_covers points point :
  IsPointInside point = true -> covered (pushPoint points point) point.
Proof.
  intros Hins. unfold pushPoint. rewrite Hins. cbn [negb].
  destruct (existsb (PointsMatch point) points) eqn:Hex.
  - apply existsb_exists in Hex as (q & Hq & Hm). right. exists q. split; assumption.
  - left. apply in_or_app. right. left. reflexivity.
Qed.

Lemma covered_extends points more pt : covered points pt -> covered (points ++ more) pt.
Proof.
  intros [Hin|(q & Hq & Hm)].
  - left. apply in_or_app. left; exact Hin.
  - right. exists q. split; [apply in_or_app; left; exact Hq | exact Hm].
Qed.

Lemma fold_pushPoint pts : forall points,
  separated points ->
  let out := fold_left pushPoint pts points in
  separated out
  /\ (exists more, out = points ++ more)
  /\ (forall pt, In pt pts -> IsPointInside pt = true -> covered out pt)
  /\ (forall q, In q out -> In q points \/ In q pts).
Proof.
  induction pts as [|pt pts IH]; intros points Hsep; cbv zeta; cbn [fold_left].
  - split; [exact Hsep|]. split; [exists []; rewrite app_nil_r; reflexivity|].
    split; [intros pt []|]. intros q Hq. left; exact Hq.
  - destruct (IH (pushPoint points pt) (pushPoint_separated points pt Hsep))
      as (Hs & (more & Hmore) & Hcov & Horigin).
    destruct (pushPoint_extends points pt) as (more0 & Hmore0).
    split; [exact Hs|]. split.
    { exists (more0 ++ more). rewrite Hmore, Hmore0, <- app_assoc. reflexivity. }
    split.
    + intros x [<-|Hx] Hins.
      * rewrite Hmore. apply covered_extends, pushPoint_covers, Hins.
      * exact (Hcov x Hx Hins).
    + intros q Hq. destruct (Horigin q Hq) as [Hq'|Hq']; [|right; right; exact Hq'].
      unfold pushPoint in Hq'.
      destruct (negb (IsPointInside pt)); [left; exact Hq'|].
      destruct (existsb _ points); [left; exact Hq'|].
      apply in_app_or in Hq' as [Hq'|[<-|[]]]; [left; exact Hq' | right; left; reflexivity].
Qed.

Lemma fold_pushFeaturePoints features : forall points,
  separated points ->
  let out := fold_left pushFeaturePoints features points in
  separated out
  /\ (exists more, out = points ++ more)
  /\ (forall ft pt, In ft features -> junction_feature ft = true ->
                    In pt (points_upper_scale ft) -> IsPointInside pt = true ->
                    covered out pt)
  /\ (forall q, In q out ->
                In q points
                \/ exists ft, In ft features /\ junction_feature ft = true
                              /\ In q (points_upper_scale ft)).
Proof.
  induction features as [|ft features IH]; intros points Hsep; cbv zeta; cbn [fold_left].
  - split; [exact Hsep|]. split; [exists []; rewrite app_nil_r; reflexivity|].
    split; [intros ft pt []|]. intros q Hq. left; exact Hq.
  - assert (Hstep : separated (pushFeaturePoints points ft)
                    /\ (exists more, pushFeaturePoints points ft = points ++ more)
                    /\ (forall pt, junction_feature ft = true ->
                                   In pt (points_upper_scale ft) ->
                                   IsPointInside pt = true ->
                                   covered (pushFeaturePoints points ft) pt)
                    /\ (forall q, In q (pushFeaturePoints points ft) ->
                                  In q points
                                  \/ (junction_feature ft = true
                                      /\ In q (points_upper_scale ft)))).
    { unfold pushFeaturePoints, junction_feature.
      destruct (is_GEOM_LINE ft); cbn [negb andb].
      2:{ split; [exact Hsep|]. split; [exists []; rewrite app_nil_r; reflexivity|].
          split; [discriminate|]. intros q Hq. left; exact Hq. }
      destruct (is_Error (GetHighwayClass ft) || is_Pedestrian (GetHighwayClass ft));
        cbn [negb].
      { split; [exact Hsep|]. split; [exists []; rewrite app_nil_r; reflexivity|].
        split; [discriminate|]. intros q Hq. left; exact Hq. }
      destruct (fold_pushPoint (points_upper_scale ft) points Hsep)
        as (Hs & Hmore & Hcov & Horigin).
      split; [exact Hs|]. split; [exact Hmore|]. split.
      - intros pt _. apply Hcov.
      - intros q Hq. destruct (Horigin q Hq) as [Hq'|Hq']; [left; exact Hq'|].
        right. split; [reflexivity | exact Hq']. }
    destruct Hstep as (Hs1 & (more1 & Hmore1) & Hcov1 & Horigin1).
    destruct (IH (pushFeaturePoints points ft) Hs1) as (Hs & (more & Hmore) & Hcov & Horigin).
    split; [exact Hs|]. split.
    { exists (more1 ++ more). rewrite Hmore, Hmore1, <- app_assoc. reflexivity. }
    split.
    + intros ft' pt [<-|Hft] Hj Hpt Hins.
      * rewrite Hmore. apply covered_extends. exact (Hcov1 pt Hj Hpt Hins).
      * exact (Hcov ft' pt Hft Hj Hpt Hins).
    + intros q Hq. destruct (Horigin q Hq) as [Hq'|(ft' & Hft & Hj & Hpt)].
      * destruct (Horigin1 q Hq') as [Hq''|[Hj Hpt]]; [left; exact Hq''|].
        right. exists ft. split; [left; reflexivity|]. split; assumption.
      * right. exists ft'. split; [right; exact Hft|]. split; assumption.
Qed.

(** X18. The junction points of the viewport: every point returned lies
    inside the viewport and comes from a line feature whose road class
    is neither Error nor Pedestrian; no returned point matches a point
    returned before it; and every point of such a feature that lies
    inside the viewport is returned or matches a returned point. *)
Theorem junction_points_separated_and_covering (features : list FeatureType) :
  let out := GetAllJunctionPointsInViewPort features in
  Forall (fun q => IsPointInside q = true) out
  /\ (forall i j a b, i < j -> out !! i = Some a -> out !! j = Some b ->
                      PointsMatch b a = false)
  /\ (forall q, In q out ->
                exists ft, In ft features /\ junction_feature ft = true
                           /\ In q (points_upper_scale ft))
  /\ (forall ft pt, In ft features -> junction_feature ft = true ->
                    In pt (points_upper_scale ft) -> IsPointInside pt = true ->
                    covered out pt).
Proof.
  cbv zeta. unfold GetAllJunctionPointsInViewPort.
  assert (Hnil : separated []).
  { split; [constructor|]. intros i j a b _ Hi. discriminate. }
  destruct (fold_pushFeaturePoints features [] Hnil) as ([Hin Hsep] & _ & Hcov & Horigin).
  split; [exact Hin|]. split; [exact Hsep|]. split; [|exact Hcov].
  intros q Hq. destruct (Horigin q Hq) as [[]|Hex]. exact Hex.
Qed.
Lemma visit_points_inv features p ft : forall pts done s,
  In ft features -> is_GEOM_LINE ft = true ->
  points_best_geometry ft = done ++ pts -> pointIndex s = length done ->
  by_point_inv features p s ->
  by_point_inv features p (fold_left (visit_point p ft) pts s).
Proof.
  induction pts as [|fp pts IH]; intros done s Hft Hline Hpts Hidx Hinv; [exact Hinv|].
  cbn [fold_left]. apply (IH (done ++ [fp])); try assumption.
  - rewrite <- app_assoc. exact Hpts.
  - unfold visit_point.
    destruct (PointsMatch fp p && distance_lt (DistanceOnEarth fp p) (minDistance s));
      cbn [pointIndex]; rewrite length_app, Hidx; simpl; lia.
  - destruct Hinv as (Hall & Hnone & Hsome). unfold visit_point.
    destruct (PointsMatch fp p) eqn:Hm; cbn [andb]; [|split; [|split]; assumption].
    destruct (distance_lt (DistanceOnEarth fp p) (minDistance s));
      [|split; [|split]; assumption].
    split; [|split]; cbn [found_points pointOnFt].
    + apply Forall_app. split; [exact Hall|]. constructor; [|constructor].
      exists ft, fp. cbn [fst snd]. split; [exact Hft|]. split; [exact Hline|].
      split; [reflexivity|]. split; [|exact Hm].
      rewrite Hpts, Hidx. apply list_lookup_middle. reflexivity.
    + intros Hc. apply app_eq_nil in Hc as [_ Hc]. discriminate.
    + intros _. exact Hm.
Qed.

Lemma visit_features_inv features p : forall fts s,
  (forall ft, In ft fts -> In ft features) ->
  by_point_inv features p s ->
  by_point_inv features p (fold_left (visit_feature p) fts s).
Proof.
  induction fts as [|ft fts IH]; intros s Hsub Hinv; [exact Hinv|].
  cbn [fold_left]. apply IH; [intros ft' Hft'; apply Hsub; right; exact Hft'|].
  unfold visit_feature. destruct (is_GEOM_LINE ft) eqn:Hline; cbn [negb]; [|exact Hinv].
  apply (visit_points_inv features p ft (points_best_geometry ft) []);
    [apply Hsub; left; reflexivity | exact Hline | reflexivity | reflexivity | exact Hinv].
Qed.

(** Nothing is found where nothing matches. *)
Lemma visit_points_none p ft : forall pts s,
  (forall fp, In fp pts -> PointsMatch fp p = false) ->
  found_points (fold_left (visit_point p ft) pts s) = found_points s
  /\ pointOnFt (fold_left (visit_point p ft) pts s) = pointOnFt s.
Proof.
  induction pts as [|fp pts IH]; intros s Hno; [split; reflexivity|].
  cbn [fold_left].
  destruct (IH (visit_point p ft s fp) (fun x Hx => Hno x (or_intror Hx))) as [-> ->].
  unfold visit_point. rewrite (Hno fp (or_introl eq_refl)). split; reflexivity.
Qed.

Lemma visit_features_none p : forall fts s,
  (forall ft fp, In ft fts -> is_GEOM_LINE ft = true ->
                 In fp (points_best_geometry ft) -> PointsMatch fp p = false) ->
  found_points (fold_left (visit_feature p) fts s) = found_points s
  /\ pointOnFt (fold_left (visit_feature p) fts s) = pointOnFt s.
Proof.
  induction fts as [|ft fts IH]; intros s Hno; [split; reflexivity|].
  cbn [fold_left].
  destruct (IH (visit_feature p s ft)) as [-> ->];
    [intros ft' fp Hft'; apply Hno; right; exact Hft'|].
  unfold visit_feature. destruct (is_GEOM_LINE ft) eqn:Hline; cbn [negb];
    [|split; reflexivity].
  destruct (visit_points_none p ft (points_best_geometry ft)
              (mkByPoint (found_points s) (pointOnFt s) 0 distance_max)) as [-> ->];
    [|split; reflexivity].
  intros fp. apply Hno; [left; reflexivity | exact Hline].
Qed.

(** X19. [GetFeaturesPointsByPoint]: every entry it returns names a point
    of a line feature within the tolerance of the click; when it returns
    entries, the adjusted click point is within the tolerance of the
    click; when no point of a line feature matches the click it returns
    no entry and replaces the click point by the default point. *)
Theorem features_points_by_point_match (features : list FeatureType) (p : PointD) :
  let '(entries, p') := GetFeaturesPointsByPoint features p in
  Forall (names_matching_point features p) entries
  /\ (entries <> [] -> PointsMatch p' p = true)
  /\ (entries = [] -> p' = default_point)
  /\ ((forall ft fp, In ft features -> is_GEOM_LINE ft = true ->
                     In fp (points_best_geometry ft) -> PointsMatch fp p = false) ->
      entries = [] /\ p' = default_point).
Proof.
  unfold GetFeaturesPointsByPoint.
  set (s0 := mkByPoint [] default_point 0 distance_max).
  assert (Hinv0 : by_point_inv features p s0).
  { split; [constructor|]. split; [reflexivity|]. intros Hc. contradiction. }
  destruct (visit_features_inv features p features s0 (fun _ Hft => Hft) Hinv0)
    as (Hall & Hnone & Hsome).
  split; [exact Hall|]. split; [exact Hsome|]. split; [exact Hnone|].
  intros Hno. destruct (visit_features_none p features s0 Hno) as [-> ->].
  split; reflexivity.
Qed.
End PointsController_facts.

(** * Runs on the sample instance *)

#[local] Existing Instance Sample.externals.


(** C3, as stated, fails: with the generic railway-station code before
    the subway-station code, the generic round runs for the first code
    and the subway round for the second, both for the same element. *)
Lemma generic_round_precedes_subway_round :
  let station := CachedTypes.Get CachedTypes.RW_STATION in
  let subway := CachedTypes.Get CachedTypes.RW_STATION_SUBWAY in
  let log := GetNameAndType.fired
               (GetNameAndType.postmatch_on [station; subway] [] params0) in
  fired_for GetNameAndType.SubwayRound log = [1]
  /\ fired_for GetNameAndType.RailwayRound log = [0]
  /\ ~ (fired_for GetNameAndType.SubwayRound log <> [] ->
        fired_for GetNameAndType.RailwayRound log = []).
Proof.
  cbv zeta. split; [reflexivity|]. split; [reflexivity|].
  intros Hc.
  assert (Hne : fired_for GetNameAndType.SubwayRound
                  (GetNameAndType.fired
                     (GetNameAndType.postmatch_on
                        [CachedTypes.Get CachedTypes.RW_STATION;
                         CachedTypes.Get CachedTypes.RW_STATION_SUBWAY] [] params0))
                <> []) by (vm_compute; discriminate).
  specialize (Hc Hne). vm_compute in Hc. discriminate.
Qed.

(** C2, as stated, fails: of the two tags [name:en=Foo], [name:en=Bar]
    the second is not consumed; it stays in the element as it was, and
    [en] keeps the value [Foo]. *)
Lemma duplicate_name_not_consumed :
  let '(tags', params') :=
    ExtractNames.run [mkTag "name:en" "Foo"; mkTag "name:en" "Bar"] params0 in
  tags' = [cleared; mkTag "name:en" "Bar"]
  /\ (exists e, tags' !! 1 = Some e /\ ~ consumed e)
  /\ name params' !! "en" = Some "Foo".
Proof.
  vm_compute. split; [reflexivity|]. split; [|reflexivity].
  eexists. split; [reflexivity|]. intros [Hk _]. discriminate.
Qed.

(** C5 fails on the code at the tag [foot=!]: the value is not one of
    no, none, false, yet the rule with the pattern ["!"] fires, because
    the literal comparison [e.value == rule.value] is tried for the
    special patterns too.  The highway table then adds both the no-foot
    and the yes-foot qualifier, also in a whole run on the element
    [highway=residential], [foot=!]. *)
Lemma bang_pattern_matches_bang_value :
  TagProcessor.IsNegative "!" = false
  /\ TagProcessor.fires
       (TagProcessor.mkRule "foot" "!"
          (TagProcessor.Func0 (AddType (CachedTypes.Get CachedTypes.NOFOOT))))
       (mkTag "foot" "!") = true
  /\ m_Types (snd (TagProcessor.ApplyRules GetNameAndType.highway_rules
                     [mkTag "foot" "!"] params0))
     = [CachedTypes.Get CachedTypes.NOFOOT; CachedTypes.Get CachedTypes.YESFOOT]
  /\ match GetNameAndType.run
             (mkElem [mkTag "highway" "residential"; mkTag "foot" "!"]) params0 with
     | Done (_, params) =>
         m_Types params
         = [GetTypeByPath ["highway"; "residential"];
            CachedTypes.Get CachedTypes.NOFOOT; CachedTypes.Get CachedTypes.YESFOOT]
     | _ => False
     end.
Proof. repeat split; vm_compute; reflexivity. Qed.

(** C9 fails on the code: a click at (0,0), the last click at (9,9), and
    one reachable point, (5,5), far from the click.  No reachable point
    matches the click, the claim asks for [Miss], the code answers [Add]:
    the [return] after the stray [;] does not depend on the test. *)
Lemma CheckClick_adds_without_match :
  let CheckClick := OpenLR.CheckClick (Z * Z) grid_eq Z grid_dist (fun d => Z.ltb d 1) in
  let claimed := OpenLR.CheckClick_claimed (Z * Z) grid_eq Z grid_dist (fun d => Z.ltb d 1) in
  existsb (OpenLR.PointsMatch (Z * Z) Z grid_dist (fun d => Z.ltb d 1) (0, 0)%Z) [(5, 5)%Z]
  = false
  /\ CheckClick (0, 0)%Z (9, 9)%Z [(5, 5)%Z] = OpenLR.Add
  /\ claimed (0, 0)%Z (9, 9)%Z [(5, 5)%Z] = OpenLR.Miss.
Proof. repeat split; reflexivity. Qed.

(** C7 fails on the code at the tag [layer=200]: [atoi] gives 200, the
    assignment to the [int8_t] field keeps -56, and the clamp, which
    comes after it, stores -10 where the claim has the parsed value
    clamped, 10; so does a whole run on the element.  At [layer=256] the
    field keeps 0, the record counts as unset and a later [layer] tag is
    taken. *)
Lemma layer_narrowed_before_clamp :
  Num.atoi "200" = 200%Z
  /\ Num.clamp (Num.atoi "200") (-10) 10 = 10%Z
  /\ Num.to_int8 (Num.atoi "200") = (-56)%Z
  /\ layer (snd (GetNameAndType.layer_action "layer" "200" params0)) = (-10)%Z
  /\ match GetNameAndType.run (mkElem [mkTag "layer" "200"]) params0 with
     | Done (_, params) => layer params = (-10)%Z
     | _ => False
     end
  /\ Num.clamp (Num.atoi "256") (-10) 10 = 10%Z
  /\ layer (snd (TagProcessor.ApplyRules GetNameAndType.base_rules
                   [mkTag "layer" "256"; mkTag "layer" "3"] params0)) = 3%Z.
Proof. repeat split; vm_compute; reflexivity. Qed.

(** C6, as stated, fails: the tag [name=primary] meets none of the
    conditions of the claim and [IgnoreTag] lets it through, yet the
    walker's scan never hands it to its functor (the functor below
    matches every tag it is called on, and is not called), and on the
    element [highway=track], [name=primary] the walker finds the type
    [highway] only, where with the key [nam] it finds [highway-primary]. *)
Lemma name_key_invisible_to_walker :
  let e := mkTag "name" "primary" in
  IgnoreTag (key e) (value e) = false
  /\ ~ (key e = "" \/ In (key e) ["description"; "cycleway"; "proposed"; "construction"]
        \/ (In (value e) ["no"; "false"; "-1"] /\ key e <> "layer" /\ key e <> "oneway"))
  /\ ForEachTagEx (fun k v (n : nat) => (true, S n)) [e] ∅ 0 = (false, {[0]}, 0)
  /\ MatchTypes (mkElem [mkTag "highway" "track"; e]) params0
     = Done (AddType (GetTypeByPath ["highway"]) params0)
  /\ MatchTypes (mkElem [mkTag "highway" "track"; mkTag "nam" "primary"]) params0
     = Done (AddType (GetTypeByPath ["highway"; "primary"]) params0).
Proof.
  cbv zeta. split; [reflexivity|]. split.
  - cbn [key value]. intros [Hc|[Hc|[Hc _]]]; [discriminate | |];
      simpl in Hc; repeat destruct Hc as [Hc|Hc]; try discriminate; contradiction.
  - split; [vm_compute; reflexivity|]. split; vm_compute; reflexivity.
Qed.

(** The preprocessing table run on an element with a consumed tag. *)
Lemma consumption_is_permanent_witness :
  keys_nonempty GetNameAndType.preprocess_rules = true
  /\ TagProcessor.ApplyRules GetNameAndType.preprocess_rules
       ([mkTag "bridge" "yes"] ++ cleared :: [mkTag "layer" "2"])
       (GetNameAndType.mkPre false None)
     = (let '(tags', st') :=
          TagProcessor.ApplyRules GetNameAndType.preprocess_rules
            ([mkTag "bridge" "yes"] ++ [mkTag "layer" "2"])
            (GetNameAndType.mkPre false None) in
        (with_cleared_at 1 tags', st')).
Proof.
  split; [reflexivity|].
  exact (proj1 (consumption_is_permanent GetNameAndType.preprocess_rules eq_refl)
           [mkTag "bridge" "yes"] [mkTag "layer" "2"] (GetNameAndType.mkPre false None)).
Defined.

(** The [layer] rule on a fresh record and the value 15, then two more
    [layer] tags. *)
Lemma layer_clamped_first_wins_witness :
  layer params0 = 0%Z
  /\ layer (snd (GetNameAndType.layer_action "layer" "15" params0)) = 10%Z
  /\ TagProcessor.ApplyRules GetNameAndType.base_rules
       (map (mkTag "layer") ["15"; "-99"; "3"]) params0
     = (map (mkTag "layer") ["15"; "-99"; "3"], set_layer 10 params0).
Proof.
  split; [reflexivity|].
  destruct (layer_clamped_first_wins params0 "15" eq_refl)
    as (_ & Hstored & _ & _ & _ & _ & Hrest).
  split; [exact Hstored|].
  apply (Hrest ltac:(discriminate) ["-99"; "3"]).
Defined.

(** A record with a house number, the entrance code and a name. *)
Lemma address_postfix_spec_witness :
  let params :=
    mkParams [CachedTypes.Get CachedTypes.ENTRANCE; CachedTypes.Get CachedTypes.HIGHWAY]
             {["default" := "Gate"]} "12" "" 0 "" 0 false in
  house params <> ""
  /\ m_Types (GetNameAndType.address_postfix params)
     = [CachedTypes.Get CachedTypes.HIGHWAY; CachedTypes.Get CachedTypes.ADDRESS]
  /\ name (GetNameAndType.address_postfix params) = ∅.
Proof.
  cbv zeta.
  assert (Hhouse : house (mkParams [CachedTypes.Get CachedTypes.ENTRANCE;
                                    CachedTypes.Get CachedTypes.HIGHWAY]
                            {["default" := "Gate"]} "12" "" 0 "" 0 false) <> "")
    by discriminate.
  split; [exact Hhouse|].
  destruct (address_postfix_spec _ Hhouse) as [Hin _].
  destruct (Hin ltac:(left; reflexivity)) as (Htypes & _ & _ & Hname & _).
  split; [exact Htypes | exact Hname].
Defined.

(** The element [name:en=Foo], [name=no], [name:en=Bar]: the third tag
    repeats the language of the first, the second is rejected by
    [IgnoreTag]. *)
Lemma name_tag_processing_witness :
  let tags := [mkTag "name:en" "Foo"; mkTag "name" "no"; mkTag "name:en" "Bar"] in
  let tags' := fst (ExtractNames.run tags params0) in
  lang_of_key "name:en" = Some "en" /\ lang_of_key "name" = Some "default"
  /\ tags' !! 0 = Some cleared
  /\ tags' !! 1 = Some (mkTag "name" "no")
  /\ tags' !! 2 = Some (mkTag "name:en" "Bar")
  /\ first_name_tag "en" tags = Some (mkTag "name:en" "Foo")
  /\ first_name_tag "default" tags = None.
Proof.
  cbv zeta. split; [reflexivity|]. split; [reflexivity|].
  pose proof (name_tag_processing
                [mkTag "name:en" "Foo"; mkTag "name" "no"; mkTag "name:en" "Bar"] params0
                2 (mkTag "name:en" "Bar") "en" eq_refl ltac:(discriminate) eq_refl) as H2.
  pose proof (name_tag_processing
                [mkTag "name:en" "Foo"; mkTag "name" "no"; mkTag "name:en" "Bar"] params0
                1 (mkTag "name" "no") "default" eq_refl ltac:(discriminate) eq_refl) as H1.
  cbv zeta in H1, H2.
  destruct H2 as (_ & _ & _ & _ & Hdup & _).
  destruct (Hdup eq_refl eq_refl) as (Hkeep & j & e0 & _ & _ & _ & _ & _ & _ & Hfirst).
  destruct H1 as (_ & _ & _ & _ & _ & Hign).
  destruct (Hign eq_refl) as (Hno & _).
  split; [reflexivity|]. split; [exact Hno|]. split; [exact Hkeep|].
  split; reflexivity.
Defined.

(** Two counting functors that differ on the key [name] only, run on an
    element with a [name] tag. *)
Lemma ForEachTagEx_consults_matchable_only_witness :
  let tags := [mkTag "name" "Elm"; mkTag "highway" "primary"] in
  let toDo : string -> string -> nat -> bool * nat := fun k v n => (false, S n) in
  let toDo' : string -> string -> nat -> bool * nat :=
    fun k v n => (String.eqb k "name", S n) in
  matchable (mkTag "name" "Elm") = false
  /\ toDo "name" "Elm" 0 <> toDo' "name" "Elm" 0
  /\ ForEachTagEx toDo tags ∅ 0 = ForEachTagEx toDo' tags ∅ 0.
Proof.
  cbv zeta. split; [reflexivity|]. split; [discriminate|].
  apply (ForEachTagEx_consults_matchable_only
           (fun k v n => (false, S n)) (fun k v n => (String.eqb k "name", S n))).
  intros e [<-|[<-|[]]] Hm s; [discriminate Hm | reflexivity].
Defined.

(** An element none of whose keys is a child of the sample root. *)
Lemma MatchTypes_without_root_match_witness :
  MatchTypes (mkElem [mkTag "name" "Elm"; mkTag "surface" "asphalt"]) params0
  = Done params0.
Proof.
  apply (MatchTypes_without_root_match
           (mkElem [mkTag "name" "Elm"; mkTag "surface" "asphalt"]) params0).
  intros e [<-|[<-|[]]] Hm; [discriminate Hm | reflexivity].
Defined.

(** The key [name:en]. *)
Lemma name_keys_are_skipped_by_walker_witness :
  lang_of_key "name:en" = Some "en"
  /\ Str.contains "name" "name:en" = true
  /\ matchable (mkTag "name:en" "Elm") = false.
Proof.
  split; [reflexivity|].
  destruct (name_keys_are_skipped_by_walker "name:en" "en" eq_refl) as [Hc Hm].
  split; [exact Hc | exact (Hm "Elm")].
Defined.
